(** * Matching covered graphs: the class [MatchingCoveredGraph]

    A shallow embedding of [src/sage/graphs/matching_covered_graph.py].

    The class is a thin subclass of [Graph]: its constructor forces the
    keyword [loops=False], dispatches on the type of [data], copies the
    graph with [Graph.__init__] and asks [Graph.is_matching_covered] for
    the certification; [allow_loops] is overridden so that loops can never
    be switched on.

    Python objects live in a heap (a finite map from locations to object
    states); methods are computations in a small state-and-exception
    monad, so that aliasing and "does not mutate its argument" can be
    stated.  The collaborators that the module imports from [.graph]
    ([Graph.__init__], [Graph.add_edge], [Graph.is_matching_covered]) are
    not part of the module; they are modelled from the specification and
    marked as such. *)

From Stdlib Require Import ZArith Lia List Bool Permutation DecimalString Ascii.
From stdpp Require Import gmap strings list fin_maps relations.

Open Scope string_scope.
Open Scope list_scope.
Open Scope nat_scope.

(** ** Python values, exceptions and the object heap *)

Module Py.

Definition loc := nat.

(** The fragment of Python values that can reach the constructor. *)
Inductive pyval :=
| VNone
| VBool (b : bool)
| VInt (z : Z)
| VStr (s : string)
| VRef (l : loc).

(** Truth value testing, as [if x:] does it. *)
Definition truthy (v : pyval) : bool :=
  match v with
  | VNone => false
  | VBool b => b
  | VInt z => negb (Z.eqb z 0)
  | VStr s => negb (String.eqb s "")
  | VRef _ => true
  end.

(** The identity test [x is True]. *)
Definition is_True (v : pyval) : bool :=
  match v with
  | VBool true => true
  | _ => false
  end.

Inductive exn :=
| ValueError (msg : string).

Inductive outcome (A : Type) :=
| Return (a : A)
| Raise (e : exn).
Arguments Return {A} a.
Arguments Raise {A} e.

Definition vertex := nat.
Definition edge := (vertex * vertex)%type.

(** The classes that matter for [isinstance]. *)
Inductive pyclass :=
| Graph_cls
| MatchingCoveredGraph_cls
| BipartiteGraph_cls
| DiGraph_cls.

Definition pyclass_eqb (c d : pyclass) : bool :=
  match c, d with
  | Graph_cls, Graph_cls
  | MatchingCoveredGraph_cls, MatchingCoveredGraph_cls
  | BipartiteGraph_cls, BipartiteGraph_cls
  | DiGraph_cls, DiGraph_cls => true
  | _, _ => false
  end.

(** [class MatchingCoveredGraph(Graph)]; [BipartiteGraph] is a [Graph] too,
    [DiGraph] is not. *)
Definition issubclass (c d : pyclass) : bool :=
  pyclass_eqb c d ||
  match c, d with
  | MatchingCoveredGraph_cls, Graph_cls
  | BipartiteGraph_cls, Graph_cls => true
  | _, _ => false
  end.

(** The state of a graph object: its class, the vertex and edge
    containers and the two policy flags.  [MatchingCoveredGraph] adds no
    attribute of its own. *)
Record gobj := mk_gobj {
  ob_class : pyclass;
  ob_vertices : list vertex;
  ob_edges : list edge;
  ob_loops : bool;
  ob_multiedges : bool
}.

Abbreviation heap := (gmap loc gobj).
Abbreviation dict := (gmap string pyval).

(** Computations: read and write the heap, return or raise. *)
Definition py (A : Type) : Type := heap -> outcome A * heap.

Definition ret {A} (a : A) : py A := fun h => (Return a, h).
Definition raise {A} (e : exn) : py A := fun h => (Raise e, h).
Definition bind {A B} (c : py A) (k : A -> py B) : py B :=
  fun h => match c h with
           | (Return a, h') => k a h'
           | (Raise e, h') => (Raise e, h')
           end.
(** [try: c  except ValueError as error: handler error] *)
Definition try_except {A} (c : py A) (handler : exn -> py A) : py A :=
  fun h => match c h with
           | (Return a, h') => (Return a, h')
           | (Raise e, h') => handler e h'
           end.
Definition lift {A} (o : outcome A) : py A := fun h => (o, h).

Definition read (l : loc) : py (option gobj) := fun h => (Return (h !! l), h).
Definition write (l : loc) (o : gobj) : py unit :=
  fun h => (Return tt, <[l := o]> h).
(** Allocation of a new object ([object.__new__]). *)
Definition alloc (o : gobj) : py loc :=
  fun h => let l := fresh (dom h) in (Return l, <[l := o]> h).

Definition isinstance (v : pyval) (c : pyclass) : py bool :=
  fun h => match v with
           | VRef l => match h !! l with
                       | Some o => (Return (issubclass (ob_class o) c), h)
                       | None => (Return false, h)
                       end
           | _ => (Return false, h)
           end.

End Py.
Import Py.

Notation "'let!' x ':=' c 'in' k" := (bind c (fun x => k))
  (at level 10, x name, c at level 100, k at level 200, only parsing).

(** ** The graph store

    The general-purpose container behind [Graph].  Edges are unordered
    pairs, kept in insertion order. *)

Module Store.

Definition same_edge (e f : edge) : bool :=
  (Nat.eqb (fst e) (fst f) && Nat.eqb (snd e) (snd f)) ||
  (Nat.eqb (fst e) (snd f) && Nat.eqb (snd e) (fst f)).

Definition edge_in (e : edge) (es : list edge) : bool :=
  existsb (same_edge e) es.

Definition mem (v : vertex) (vs : list vertex) : bool :=
  existsb (Nat.eqb v) vs.

Definition is_loop (e : edge) : bool := Nat.eqb (fst e) (snd e).

Definition order (G : gobj) : nat := length (ob_vertices G).
Definition has_edge (G : gobj) (e : edge) : bool := edge_in e (ob_edges G).
Definition has_loops (G : gobj) : bool := existsb is_loop (ob_edges G).

Definition add_vertex (v : vertex) (vs : list vertex) : list vertex :=
  if mem v vs then vs else vs ++ [v].

(** Decimal rendering of a vertex, as [str] gives it inside messages. *)
Definition str (n : nat) : string := NilEmpty.string_of_uint (Nat.to_uint n).

Definition loop_error (u v : vertex) : exn :=
  ValueError ("cannot add edge from " ++ str u ++ " to " ++ str v ++
              " in graph without loops")%string.

(** The vertices outside [reach] that have a neighbour in [reach]. *)
Definition fresh_neighbours (vs : list vertex) (es : list edge)
    (reach : list vertex) : list vertex :=
  List.filter (fun w => negb (mem w reach) &&
                        existsb (fun r => edge_in (r, w) es) reach) vs.

(** Vertices reached from [reach] in at most one more step. *)
Definition expand (vs : list vertex) (es : list edge) (reach : list vertex)
  : list vertex :=
  reach ++ fresh_neighbours vs es reach.

Fixpoint closure (vs : list vertex) (es : list edge) (fuel : nat)
    (reach : list vertex) : list vertex :=
  match fuel with
  | O => reach
  | S fuel' => closure vs es fuel' (expand vs es reach)
  end.

(** The connectivity query: every vertex is reached from the first one. *)
Definition is_connected (G : gobj) : bool :=
  match ob_vertices G with
  | [] => true
  | v :: _ =>
      forallb (fun w => mem w (closure (ob_vertices G) (ob_edges G) (order G) [v]))
              (ob_vertices G)
  end.

(** Two vertices of the graph joined by an edge, and connectedness as
    graph theory has it: any two vertices are linked by a walk. *)
Definition joined (G : gobj) (u w : vertex) : Prop :=
  has_edge G (u, w) = true /\ In u (ob_vertices G) /\ In w (ob_vertices G).

Definition connected (G : gobj) : Prop :=
  forall v w, In v (ob_vertices G) -> In w (ob_vertices G) -> rtc (joined G) v w.

(** What the store guarantees about its containers: no vertex is listed
    twice and the end points of every edge are vertices. *)
Definition well_formed (G : gobj) : Prop :=
  List.NoDup (ob_vertices G) /\
  forall e, In e (ob_edges G) ->
            In (fst e) (ob_vertices G) /\ In (snd e) (ob_vertices G).

End Store.
Import Store.

(** ** Methods inherited from [Graph] *)

Module Graph.

(** A keyword that is absent or [None] takes its default. *)
Definition kw_flag (kwds : dict) (k : string) (default : bool) : bool :=
  match kwds !! k with
  | None | Some VNone => default
  | Some v => truthy v
  end.

(** Modelled from the spec: [Graph.__init__] lives in [graph.py], which
    is not part of the module.  Only construction from a graph instance
    (and from [None], the empty graph) is modelled, for the keywords
    [loops] and [multiedges]; positional [args] are forwarded but do not
    bear on the vertices, the edges or the policy flags.  The new store
    gets its policy flags first and the vertices and edges of [data] are
    then inserted; following the spec ("loop-rejection at edge-insertion
    time", "a policy flag checked on every mutating call"), a loop of
    [data] is rejected when the new store forbids loops.  [data] itself
    is only read. *)
Definition __init__ (self : loc) (data : pyval) (args : list pyval)
    (kwds : dict) : py unit :=
  let! s := read self in
  let cls := match s with Some s => ob_class s | None => Graph_cls end in
  match data with
  | VNone =>
      write self {| ob_class := cls; ob_vertices := []; ob_edges := [];
                    ob_loops := kw_flag kwds "loops" false;
                    ob_multiedges := kw_flag kwds "multiedges" false |}
  | VRef l =>
      let! d := read l in
      match d with
      | Some d =>
          let loops := kw_flag kwds "loops" (ob_loops d) in
          let multiedges := kw_flag kwds "multiedges" (ob_multiedges d) in
          match (if loops then None else List.find is_loop (ob_edges d)) with
          | Some e => raise (loop_error (fst e) (snd e))
          | None =>
              write self {| ob_class := cls;
                            ob_vertices := ob_vertices d;
                            ob_edges := ob_edges d;
                            ob_loops := loops;
                            ob_multiedges := multiedges |}
          end
      | None => raise (ValueError "input data is of unknown type")
      end
  | _ => raise (ValueError "input data is of unknown type")
  end.

(** Modelled from the spec: [Graph.add_edge] is not part of the module.
    The store rejects a loop at insertion time when loops are forbidden
    (the message is the one the class's tests show); otherwise the end
    points are added when new, and the edge is added unless it is already
    there and multiple edges are off. *)
Definition add_edge (self : loc) (u v : vertex) : py unit :=
  let! s := read self in
  match s with
  | Some G =>
      if Nat.eqb u v && negb (ob_loops G) then raise (loop_error u v)
      else
        write self {| ob_class := ob_class G;
                      ob_vertices := add_vertex v (add_vertex u (ob_vertices G));
                      ob_edges := if negb (ob_multiedges G) && has_edge G (u, v)
                                  then ob_edges G
                                  else ob_edges G ++ [(u, v)];
                      ob_loops := ob_loops G;
                      ob_multiedges := ob_multiedges G |}
  | None => raise (ValueError "no such object")
  end.

(** Modelled from the spec: [allows_loops] reads the loop policy flag of
    the store. *)
Definition allows_loops (self : loc) : py bool :=
  let! s := read self in
  match s with
  | Some G => ret (ob_loops G)
  | None => raise (ValueError "no such object")
  end.

(** Modelled from the spec: [==] on graphs is not part of the module.
    A graph is what its store holds: the vertices, the edges and the two
    policy flags (spec sections 3 and 9, where the conventions on loops
    and multiple edges belong to the Graph Store itself).  Two graphs are
    equal when the flags agree, they have as many vertices and as many
    edges, and each has the vertices and the edges of the other.  The
    class is not compared. *)
Definition __eq__ (G H : gobj) : bool :=
  Bool.eqb (ob_loops G) (ob_loops H) &&
  Bool.eqb (ob_multiedges G) (ob_multiedges H) &&
  Nat.eqb (order G) (order H) &&
  Nat.eqb (length (ob_edges G)) (length (ob_edges H)) &&
  forallb (fun v => mem v (ob_vertices H)) (ob_vertices G) &&
  forallb (fun v => mem v (ob_vertices G)) (ob_vertices H) &&
  forallb (has_edge H) (ob_edges G) &&
  forallb (has_edge G) (ob_edges H).

(** Modelled from the spec: the generator of complete graphs is not part
    of the module; the complete graph on the vertices [0 .. n-1]. *)
Definition CompleteGraph (n : nat) : gobj :=
  {| ob_class := Graph_cls;
     ob_vertices := seq 0 n;
     ob_edges := flat_map (fun i => map (fun j => (i, j)) (seq (S i) (n - S i)))
                          (seq 0 n);
     ob_loops := false;
     ob_multiedges := false |}.

End Graph.

(** ** The certification: [Graph.is_matching_covered]

    The routine itself is not part of the module (the class only calls
    it).  It is modelled from sections 4.1 to 4.3 of the specification. *)

Module Matching.

Definition endpoints (M : list edge) : list vertex :=
  flat_map (fun e => [fst e; snd e]) M.

Fixpoint nodupb (l : list vertex) : bool :=
  match l with
  | [] => true
  | x :: l' => negb (mem x l') && nodupb l'
  end.

(** Modelled from the spec: the three tests on a supplied matching
    (section 4.3, step 2), on the edges as they are listed.
    (a) no two edges share an end point *)
Definition is_matching (M : list edge) : bool := nodupb (endpoints M).
(** (b) every edge exists in the graph *)
Definition is_matching_of (G : gobj) (M : list edge) : bool :=
  forallb (has_edge G) M.
(** (c) every vertex is covered *)
Definition covers (G : gobj) (M : list edge) : bool :=
  forallb (fun v => mem v (endpoints M)) (ob_vertices G).

Definition is_perfect_matching (G : gobj) (M : list edge) : bool :=
  is_matching M && is_matching_of G M && covers G M.

Definition remove_vertex (u : vertex) (l : list vertex) : list vertex :=
  List.filter (fun w => negb (Nat.eqb w u)) l.

Fixpoint first_some {A B} (f : A -> option B) (l : list A) : option B :=
  match l with
  | [] => None
  | x :: l' => match f x with
               | Some y => Some y
               | None => first_some f l'
               end
  end.

(** Modelled from the spec: the Matching Finder (section 4.1) is a
    pluggable algorithm with a fixed contract: a perfect matching or a
    definitive NotFound.  The model is the exhaustive search with that
    contract: the first free vertex is matched with each free neighbour
    in turn and the search goes on with the remaining free vertices. *)
Fixpoint pm_search (fuel : nat) (es : list edge) (free : list vertex)
  : option (list edge) :=
  match free with
  | [] => Some []
  | v :: rest =>
      match fuel with
      | O => None
      | S fuel' =>
          first_some
            (fun u => if edge_in (v, u) es
                      then option_map (cons (v, u))
                                      (pm_search fuel' es (remove_vertex u rest))
                      else None)
            rest
      end
  end.

(** Modelled from the spec: [find_perfect_matching] (section 4.1); an odd
    vertex count yields NotFound without search. *)
Definition find_perfect_matching (G : gobj) : option (list edge) :=
  if Nat.odd (order G) then None
  else pm_search (order G) (ob_edges G) (ob_vertices G).

Inductive verdict := IN_MATCHING | ALLOWED | FORBIDDEN.

Definition is_forbidden (v : verdict) : bool :=
  match v with FORBIDDEN => true | _ => false end.

(** The direct test of section 4.2: force [e] into the matching and run
    the Matching Finder on the other vertices. *)
Definition extends_to_pm (G : gobj) (e : edge) : bool :=
  negb (is_loop e) &&
  match pm_search (order G) (ob_edges G)
                  (remove_vertex (snd e) (remove_vertex (fst e) (ob_vertices G))) with
  | Some _ => true
  | None => false
  end.

(** Modelled from the spec: the Certifier, [classify_edges] (section
    4.2), in the variant that the spec accepts as functionally
    equivalent: a matching edge is IN_MATCHING, another edge is ALLOWED
    when the Matching Finder produces a perfect matching containing it
    and FORBIDDEN otherwise. *)
Definition classify_edge (G : gobj) (M : list edge) (e : edge) : verdict :=
  if edge_in e M then IN_MATCHING
  else if extends_to_pm G e then ALLOWED
  else FORBIDDEN.

Definition classify_edges (G : gobj) (M : list edge) : list (edge * verdict) :=
  map (fun e => (e, classify_edge G M e)) (ob_edges G).

Inductive reason :=
| TRIVIAL
| HAS_LOOP
| DISCONNECTED
| NOT_A_MATCHING
| NOT_A_MATCHING_OF_GRAPH
| NOT_PERFECT
| NO_PERFECT_MATCHING
| EDGE_NOT_COVERED (e : edge).

Inductive validation :=
| ACCEPTED (M : list edge)
| REJECTED (r : reason).

(** Modelled from the spec: step 2 of the state machine (section 4.3):
    validate the supplied matching, or compute one.  Whatever is
    supplied, an empty list included, is validated. *)
Definition resolve_matching (G : gobj) (matching : option (list edge))
  : list edge + reason :=
  match matching with
  | Some M =>
      if negb (is_matching M) then inr NOT_A_MATCHING
      else if negb (is_matching_of G M) then inr NOT_A_MATCHING_OF_GRAPH
      else if negb (covers G M) then inr NOT_PERFECT
      else inl M
  | None =>
      match find_perfect_matching G with
      | Some M => inl M
      | None => inr NO_PERFECT_MATCHING
      end
  end.

(** Modelled from the spec: the Matching-Covered Validator (section
    4.3), a three-step state machine: structural check (a graph with no
    vertex or a single vertex is trivial, section 7), matching
    resolution, certification. *)
Definition validate (G : gobj) (matching : option (list edge)) : validation :=
  if Nat.ltb (order G) 2 then REJECTED TRIVIAL
  else if has_loops G then REJECTED HAS_LOOP
  else if negb (is_connected G) then REJECTED DISCONNECTED
  else
    match resolve_matching G matching with
    | inr r => REJECTED r
    | inl M =>
        match List.find (fun ev => is_forbidden (snd ev)) (classify_edges G M) with
        | Some ev => REJECTED (EDGE_NOT_COVERED (fst ev))
        | None => ACCEPTED M
        end
    end.

(** Modelled from the spec: [Graph.is_matching_covered] as the class
    calls it, with [coNP_certificate=False], so that the answer is the
    bare boolean.  The tests of the class fix how a rejection surfaces: a
    trivial or disconnected graph and an invalid matching raise a
    [ValueError] with their own message, while a graph without a perfect
    matching and a graph with an uncovered edge both answer [False].
    For a loop the spec gives the reason (LoopNotAllowed) but the tests
    give no message; the message of the class is used.  [algorithm],
    [solver], [verbose] and [integrality_tolerance] select and tune the
    Matching Finder, whose contract does not depend on them;
    the tolerance, a float, is kept as a decimal [(m, e)] for [m * 10^e]. *)
Definition is_matching_covered (G : gobj) (matching : option (list edge))
    (algorithm : string) (solver : option string) (verbose : Z)
    (integrality_tolerance : Z * Z) : outcome bool :=
  match validate G matching with
  | ACCEPTED _ => Return true
  | REJECTED TRIVIAL => Raise (ValueError "the graph is trivial")
  | REJECTED HAS_LOOP =>
      Raise (ValueError "loops are not allowed in matching covered graphs")
  | REJECTED DISCONNECTED => Raise (ValueError "the graph is not connected")
  | REJECTED NOT_A_MATCHING => Raise (ValueError "the input is not a matching")
  | REJECTED NOT_A_MATCHING_OF_GRAPH =>
      Raise (ValueError "the input is not a matching of the graph")
  | REJECTED NOT_PERFECT =>
      Raise (ValueError "the input is not a perfect matching of the graph")
  | REJECTED NO_PERFECT_MATCHING => Return false
  | REJECTED (EDGE_NOT_COVERED _) => Return false
  end.




(** [M] pairs up exactly the vertices of [free] along edges of [es]. *)
Definition pairing (es : list edge) (free : list vertex) (M : list edge) : Prop :=
  (forall e, In e M -> edge_in e es = true) /\
  List.NoDup (endpoints M) /\
  (forall w, In w (endpoints M) <-> In w free).

(** The edge [e] lies in some perfect matching of [G]. *)
Definition coverable (G : gobj) (e : edge) : Prop :=
  exists M, is_perfect_matching G M = true /\ edge_in e M = true.

End Matching.
Import Matching.

(** ** Python string methods

    The methods of [str] that [__repr__] uses.  Characters are bytes and
    case is the case of the ASCII letters: the model is that of Python on
    ASCII text. *)

Module Str.

Definition is_ascii_upper (c : ascii) : bool :=
  Nat.leb 65 (nat_of_ascii c) && Nat.leb (nat_of_ascii c) 90.

Definition is_ascii_lower (c : ascii) : bool :=
  Nat.leb 97 (nat_of_ascii c) && Nat.leb (nat_of_ascii c) 122.

Definition lower_char (c : ascii) : ascii :=
  if is_ascii_upper c then ascii_of_nat (nat_of_ascii c + 32) else c.

Definition upper_char (c : ascii) : ascii :=
  if is_ascii_lower c then ascii_of_nat (nat_of_ascii c - 32) else c.

(** [s.lower()] *)
Fixpoint lower (s : string) : string :=
  match s with
  | EmptyString => EmptyString
  | String c s' => String (lower_char c) (lower s')
  end.

(** [s.capitalize()]: the first character in upper case, the rest in
    lower case. *)
Definition capitalize (s : string) : string :=
  match s with
  | EmptyString => EmptyString
  | String c s' => String (upper_char c) (lower s')
  end.

(** [p in s]: [p] occurs in [s] as a substring. *)
Fixpoint contains (p s : string) : bool :=
  String.prefix p s ||
  match s with
  | EmptyString => false
  | String _ s' => contains p s'
  end.

(** Text made of ASCII characters only. *)
Fixpoint is_ascii (s : string) : bool :=
  match s with
  | EmptyString => true
  | String c s' => Nat.ltb (nat_of_ascii c) 128 && is_ascii s'
  end.

End Str.

(** ** The class [MatchingCoveredGraph] *)

Module MatchingCoveredGraph.

Definition loops_error : exn :=
  ValueError "loops are not allowed in matching covered graphs".

Definition not_covered : exn :=
  ValueError "input graph is not matching covered".

(** [_upgrade_from_graph]: ask for the certification of [self]; a
    negative answer becomes a [ValueError], and a [ValueError] of the
    check is raised again as it is. *)
Definition _upgrade_from_graph (self : loc) (matching : option (list edge))
    (algorithm : string) (solver : option string) (verbose : Z)
    (integrality_tolerance : Z * Z) : py unit :=
  try_except
    (let! s := read self in
     match s with
     | Some G =>
         let! check := lift (is_matching_covered G matching algorithm solver
                                                 verbose integrality_tolerance) in
         if negb check
         then raise not_covered
         else ret tt
     | None => raise (ValueError "no such object")
     end)
    (fun error => raise error).

(** [__init__].  [**kwds] is always a dictionary at run time; the source
    also has a branch for [kwds is None], kept here with [option]. *)
Definition __init__ (self : loc) (data : pyval) (matching : option (list edge))
    (algorithm : string) (solver : option string) (verbose : Z)
    (integrality_tolerance : Z * Z) (args : list pyval) (kwds : option dict)
  : py unit :=
  let! kwds :=
    match kwds with
    | None => ret ({["loops" := VBool false]} : dict)
    | Some kwds =>
        if match kwds !! "loops" with
           | Some v => truthy v
           | None => false
           end
        then raise loops_error
        else ret (<["loops" := VBool false]> kwds)
    end in
  match data with
  | VNone => raise (ValueError "the graph is trivial")
  | _ =>
      let! is_mcg := isinstance data MatchingCoveredGraph_cls in
      if is_mcg then Graph.__init__ self data args kwds
      else
        let! is_graph := isinstance data Graph_cls in
        if is_graph then
          let! _ := Graph.__init__ self data args kwds in
          _upgrade_from_graph self matching algorithm solver verbose
                              integrality_tolerance
        else raise (ValueError "input data is of unknown type")
  end.

(** [allow_loops]: only [new is True] is acted upon; the method falls off
    its end otherwise. *)
Definition allow_loops (self : loc) (new : pyval) (check : pyval) : py unit :=
  if is_True new then raise loops_error else ret tt.

(** A new instance before [__init__] runs. *)
Definition blank : gobj :=
  {| ob_class := MatchingCoveredGraph_cls; ob_vertices := []; ob_edges := [];
     ob_loops := false; ob_multiedges := false |}.

(** The call [MatchingCoveredGraph(data, matching, ..., *args, **kwds)]:
    allocate the instance, run [__init__] on it, hand it out. *)
Definition new (data : pyval) (matching : option (list edge))
    (algorithm : string) (solver : option string) (verbose : Z)
    (integrality_tolerance : Z * Z) (args : list pyval) (kwds : option dict)
  : py loc :=
  let! self := alloc blank in
  let! _ := __init__ self data matching algorithm solver verbose
                     integrality_tolerance args kwds in
  ret self.

(** The call with every optional argument at its default. *)
Definition new_default (data : pyval) : py loc :=
  new data None "Edmonds" None 0%Z (1, -3)%Z [] (Some ∅).

(** [__repr__].  [Graph._repr_] is not part of the module; its value for
    [self] is the argument [graph_repr]. *)
Definition __repr__ (graph_repr : string) : string :=
  let s := Str.lower graph_repr in
  if Str.contains "matching covered" s then Str.capitalize s
  else String.append "Matching covered " s.

End MatchingCoveredGraph.

Import MatchingCoveredGraph.

(** ** Reachable heaps

    What a program can do to the heap: construct a matching covered graph
    from anything, call [allow_loops] or [add_edge] on any object with
    any arguments, and do whatever it likes to objects that are not
    matching covered graphs. *)

Module Reach.

Definition is_mcg (G : gobj) : bool :=
  pyclass_eqb (ob_class G) MatchingCoveredGraph_cls.

Inductive op (h : heap) : heap -> Prop :=
| op_new data matching algorithm solver verbose tol args kwds :
    op h (snd (new data matching algorithm solver verbose tol args kwds h))
| op_allow_loops self v check :
    op h (snd (allow_loops self v check h))
| op_add_edge self u v :
    op h (snd (Graph.add_edge self u v h))
| op_other l G :
    (forall G0, h !! l = Some G0 -> is_mcg G0 = false) ->
    is_mcg G = false ->
    op h (<[l := G]> h).

(** Heaps reached from one that holds no matching covered graph yet. *)
Definition reachable (h : heap) : Prop :=
  exists h0, (forall l G, h0 !! l = Some G -> is_mcg G = false) /\ rtc op h0 h.

(** The loop invariant of the class. *)
Definition loop_free (h : heap) : Prop :=
  forall l G, h !! l = Some G -> is_mcg G = true ->
              ob_loops G = false /\ has_loops G = false.

(** Whether the keyword [loops] was given a true value. *)
Definition loops_requested (kwds : option dict) : bool :=
  match kwds with
  | Some kw => match kw !! "loops" with
               | Some v => truthy v
               | None => false
               end
  | None => false
  end.

(** The keywords that [__init__] hands to [Graph.__init__]. *)
Definition forced (kwds : option dict) : dict :=
  match kwds with
  | Some kw => <["loops" := VBool false]> kw
  | None => {["loops" := VBool false]}
  end.

(** The state that a successful construction from [G] leaves in the new
    object: the copy made by [Graph.__init__] under the forced keywords. *)
Definition made (G : gobj) (kw : dict) : gobj :=
  {| ob_class := MatchingCoveredGraph_cls;
     ob_vertices := ob_vertices G;
     ob_edges := ob_edges G;
     ob_loops := false;
     ob_multiedges := Graph.kw_flag kw "multiedges" (ob_multiedges G) |}.

(** The graphs the class is for, in the words of its documentation: a
    connected nontrivial graph (without loops) in which each edge
    participates in some perfect matching. *)
Definition matching_covered (G : gobj) : Prop :=
  2 <= order G /\ has_loops G = false /\ connected G /\
  forall e, In e (ob_edges G) -> coverable G e.

(** [data] denotes an object of the heap, or is not a reference. *)
Definition valid_data (h : heap) (data : pyval) : Prop :=
  forall l, data = VRef l -> is_Some (h !! l).

End Reach.
Import Reach.

(** ** Small graphs used as test inputs *)

Module Examples.

Definition plain (vs : list vertex) (es : list edge) : gobj :=
  {| ob_class := Graph_cls; ob_vertices := vs; ob_edges := es;
     ob_loops := false; ob_multiedges := false |}.

(** The cycle 0-1-2-3-0; its perfect matchings are {01,23} and {12,30}. *)
Definition cycle4 : gobj := plain [0; 1; 2; 3] [(0, 1); (1, 2); (2, 3); (3, 0)].
(** The path 0-1-2-3; the middle edge lies in no perfect matching. *)
Definition path4 : gobj := plain [0; 1; 2; 3] [(0, 1); (1, 2); (2, 3)].
(** The same cycle in a store that allows loops (and holds none). *)
Definition looped_cycle4 : gobj :=
  {| ob_class := Graph_cls; ob_vertices := [0; 1; 2; 3];
     ob_edges := [(0, 1); (1, 2); (2, 3); (3, 0)];
     ob_loops := true; ob_multiedges := false |}.
(** Two disjoint edges. *)
Definition two_edges : gobj := plain [0; 1; 2; 3] [(0, 1); (2, 3)].

Definition heap0 : heap :=
  <[0 := cycle4]> (<[1 := path4]> (<[2 := two_edges]>
  (<[3 := Graph.CompleteGraph 3]> (<[4 := plain [0] []]>
  (<[5 := plain [] []]> ∅))))).

(** The constructor with the optional arguments at their defaults, but
    for [matching] and the keywords. *)
Definition construct (data : pyval) (matching : option (list edge))
    (kwds : dict) : py loc :=
  new data matching "Edmonds" None 0%Z (1, -3)%Z [] (Some kwds).

End Examples.
Import Examples.

(** * Facts about the store and the search *)

Section StoreFacts.

Lemma mem_In (v : vertex) (vs : list vertex) : mem v vs = true <-> In v vs.
Proof.
  unfold mem. rewrite existsb_exists. split.
  - intros (x & Hx & E). apply Nat.eqb_eq in E. now subst.
  - intros H. exists v. split; [assumption | apply Nat.eqb_refl].
Qed.

Lemma mem_false (v : vertex) (vs : list vertex) : mem v vs = false <-> ~ In v vs.
Proof.
  rewrite <- mem_In. destruct (mem v vs); split; congruence.
Qed.

Lemma same_edge_sym (e f : edge) : same_edge e f = same_edge f e.
Proof.
  unfold same_edge.
  rewrite (Nat.eqb_sym (fst e) (fst f)), (Nat.eqb_sym (snd e) (snd f)),
          (Nat.eqb_sym (fst e) (snd f)), (Nat.eqb_sym (snd e) (fst f)).
  destruct (Nat.eqb (fst f) (fst e)), (Nat.eqb (snd f) (snd e)),
           (Nat.eqb (snd f) (fst e)), (Nat.eqb (fst f) (snd e)); reflexivity.
Qed.

Lemma same_edge_flip (u v : vertex) (f : edge) :
  same_edge (u, v) f = same_edge (v, u) f.
Proof.
  unfold same_edge; simpl.
  destruct (Nat.eqb u (fst f)), (Nat.eqb v (snd f)), (Nat.eqb u (snd f)),
           (Nat.eqb v (fst f)); reflexivity.
Qed.

Lemma same_edge_refl (e : edge) : same_edge e e = true.
Proof. unfold same_edge. now rewrite !Nat.eqb_refl. Qed.

Lemma edge_in_flip (u v : vertex) (es : list edge) :
  edge_in (u, v) es = edge_in (v, u) es.
Proof.
  unfold edge_in. induction es as [|f es IH]; simpl; [reflexivity|].
  now rewrite IH, same_edge_flip.
Qed.

Lemma In_edge_in (e : edge) (es : list edge) : In e es -> edge_in e es = true.
Proof.
  intros H. unfold edge_in. apply existsb_exists. exists e.
  split; [assumption | apply same_edge_refl].
Qed.

Lemma nodupb_NoDup (l : list vertex) : nodupb l = true <-> List.NoDup l.
Proof.
  induction l as [|x l IH]; simpl.
  - split; [constructor | reflexivity].
  - rewrite List.NoDup_cons_iff, andb_true_iff, negb_true_iff, mem_false, IH.
    reflexivity.
Qed.

Lemma In_remove_vertex (w u : vertex) (l : list vertex) :
  In w (remove_vertex u l) <-> In w l /\ w <> u.
Proof.
  unfold remove_vertex. rewrite List.filter_In, negb_true_iff, Nat.eqb_neq.
  reflexivity.
Qed.

Lemma NoDup_remove_vertex (u : vertex) (l : list vertex) :
  List.NoDup l -> List.NoDup (remove_vertex u l).
Proof. apply List.NoDup_filter. Qed.

Lemma length_remove_vertex (u : vertex) (l : list vertex) :
  length (remove_vertex u l) <= length l.
Proof. apply List.filter_length_le. Qed.

Lemma first_some_Some {A B} (f : A -> option B) (l : list A) (y : B) :
  first_some f l = Some y -> exists x, In x l /\ f x = Some y.
Proof.
  induction l as [|a l IH]; simpl; [discriminate|].
  destruct (f a) as [b|] eqn:E.
  - intros [= <-]. exists a. auto.
  - intros H. destruct (IH H) as (x & Hx & Hf). exists x. auto.
Qed.

Lemma first_some_hit {A B} (f : A -> option B) (l : list A) (x : A) (y : B) :
  In x l -> f x = Some y -> exists z, first_some f l = Some z.
Proof.
  induction l as [|a l IH]; simpl; [tauto|].
  intros [->|Hin] Hf.
  - rewrite Hf. eauto.
  - destruct (f a); eauto.
Qed.

Lemma find_none_existsb {A} (p : A -> bool) (l : list A) :
  List.find p l = None <-> existsb p l = false.
Proof.
  induction l as [|a l IH]; simpl; [tauto|].
  destruct (p a); simpl; [split; discriminate | exact IH].
Qed.

End StoreFacts.

(** The connectivity query is exact. *)
Section ConnectivityFacts.

Variable G : gobj.
Let vs := ob_vertices G.
Let es := ob_edges G.

Lemma expand_eq (reach : list vertex) :
  expand vs es reach = reach ++ fresh_neighbours vs es reach.
Proof. reflexivity. Qed.

Lemma fresh_neighbours_In (reach : list vertex) (w : vertex) :
  In w (fresh_neighbours vs es reach) <->
  In w vs /\ ~ In w reach /\ exists r, In r reach /\ edge_in (r, w) es = true.
Proof.
  unfold fresh_neighbours.
  rewrite List.filter_In, andb_true_iff, negb_true_iff, mem_false, existsb_exists.
  reflexivity.
Qed.

Lemma closure_grows (fuel : nat) :
  forall reach w, In w reach -> In w (closure vs es fuel reach).
Proof.
  induction fuel as [|fuel IH]; intros reach w Hw; simpl; [assumption|].
  apply IH. rewrite expand_eq. apply in_or_app. now left.
Qed.

Lemma closure_stable (fuel : nat) (reach : list vertex) :
  fresh_neighbours vs es reach = [] -> closure vs es fuel reach = reach.
Proof.
  intros Hs. induction fuel as [|fuel IH]; simpl; [reflexivity|].
  now rewrite expand_eq, Hs, app_nil_r.
Qed.

Lemma stable_closed (reach : list vertex) (a b : vertex) :
  fresh_neighbours vs es reach = [] ->
  In a reach -> In b vs -> edge_in (a, b) es = true -> In b reach.
Proof.
  intros Hs Ha Hb He.
  destruct (in_dec Nat.eq_dec b reach) as [Hin|Hout]; [assumption|].
  assert (Hnew : In b (fresh_neighbours vs es reach))
    by (apply fresh_neighbours_In; eauto).
  rewrite Hs in Hnew. destruct Hnew.
Qed.

Lemma expand_NoDup (reach : list vertex) :
  List.NoDup vs -> List.NoDup reach -> List.NoDup (expand vs es reach).
Proof.
  intros Hvs Hr. rewrite expand_eq. apply List.NoDup_app.
  - assumption.
  - now apply List.NoDup_filter.
  - intros a Ha Hnew. apply fresh_neighbours_In in Hnew. tauto.
Qed.

Lemma expand_incl (reach : list vertex) :
  incl reach vs -> incl (expand vs es reach) vs.
Proof.
  intros Hr w Hw. rewrite expand_eq in Hw. apply in_app_or in Hw as [Hw|Hw].
  - now apply Hr.
  - now apply fresh_neighbours_In in Hw.
Qed.

(** With enough rounds the reached set is closed under adjacency. *)
Lemma closure_closed (fuel : nat) :
  forall reach,
    List.NoDup vs -> List.NoDup reach -> incl reach vs ->
    length vs <= length reach + fuel ->
    forall a b, In a (closure vs es fuel reach) -> In b vs ->
                edge_in (a, b) es = true -> In b (closure vs es fuel reach).
Proof.
  induction fuel as [|fuel IH]; intros reach Hvs Hr Hincl Hlen a b Ha Hb He.
  - simpl in *.
    assert (Hall : incl vs reach)
      by (apply List.NoDup_length_incl; [assumption | lia | assumption]).
    now apply Hall.
  - destruct (fresh_neighbours vs es reach) as [|x new] eqn:Hs.
    + rewrite closure_stable in * by assumption.
      now apply (stable_closed reach a b).
    + simpl in *. apply (IH (expand vs es reach)) with (a := a); auto.
      * now apply expand_NoDup.
      * now apply expand_incl.
      * rewrite expand_eq, List.length_app, Hs. simpl. lia.
Qed.

Lemma closure_sound (v0 : vertex) (fuel : nat) :
  forall reach,
    (forall r, In r reach -> In r vs /\ rtc (joined G) v0 r) ->
    forall w, In w (closure vs es fuel reach) -> rtc (joined G) v0 w.
Proof.
  induction fuel as [|fuel IH]; intros reach Hr w Hw; simpl in Hw.
  - now apply Hr.
  - apply (IH (expand vs es reach)); [|assumption].
    intros r Hin. rewrite expand_eq in Hin. apply in_app_or in Hin as [Hin|Hin].
    + now apply Hr.
    + apply fresh_neighbours_In in Hin as (Hv & _ & r0 & Hr0 & He).
      split; [assumption|]. destruct (Hr r0 Hr0) as [Hv0 Hw0].
      apply (rtc_r _ r0); [assumption|]. repeat split; assumption.
Qed.

Lemma joined_sym (u w : vertex) : joined G u w -> joined G w u.
Proof.
  intros (He & Hu & Hw). repeat split; try assumption.
  unfold has_edge in *. now rewrite edge_in_flip.
Qed.

Lemma walk_sym (u w : vertex) : rtc (joined G) u w -> rtc (joined G) w u.
Proof.
  intros H. induction H as [|u v w Huv _ IH]; [constructor|].
  apply (rtc_r _ v); [assumption | now apply joined_sym].
Qed.

Lemma is_connected_correct :
  List.NoDup (ob_vertices G) -> (is_connected G = true <-> connected G).
Proof.
  intros Hvs. unfold is_connected, connected, order.
  fold vs es. destruct vs as [|v0 rest] eqn:Evs.
  { split; [intros _ v w []|reflexivity]. }
  rewrite <- Evs.
  assert (H0 : In v0 vs) by (rewrite Evs; now left).
  rewrite forallb_forall. split.
  - intros H v w Hv Hw.
    assert (Hreach : forall x, In x vs -> rtc (joined G) v0 x).
    { intros x Hx. apply (closure_sound v0 (length vs) [v0]).
      - intros r [<-|[]]. split; [assumption | constructor].
      - apply mem_In. now apply H. }
    transitivity v0; [apply walk_sym|]; now apply Hreach.
  - intros H w Hw. apply mem_In.
    specialize (H v0 w H0 Hw). clear Hw. revert w H.
    apply (rtc_ind_r (fun w => In w (closure vs es (length vs) [v0])) v0).
    + apply closure_grows. now left.
    + intros u w Hu Hstep IH. destruct Hstep as (He & Hu' & Hw').
      apply (closure_closed (length vs) [v0]) with (a := u); auto.
      { constructor; [intros [] | constructor]. }
      { intros x [<-|[]]. assumption. }
Qed.

End ConnectivityFacts.

Section SearchFacts.

Lemma endpoints_app (M1 M2 : list edge) :
  endpoints (M1 ++ M2) = endpoints M1 ++ endpoints M2.
Proof. unfold endpoints. apply List.flat_map_app. Qed.

Lemma endpoints_split (v : vertex) (M : list edge) :
  In v (endpoints M) ->
  exists M1 a b M2, M = M1 ++ (a, b) :: M2 /\ (v = a \/ v = b).
Proof.
  unfold endpoints. rewrite List.in_flat_map. intros ([a b] & Hin & Hv).
  destruct (List.in_split _ _ Hin) as (M1 & M2 & ->).
  exists M1, a, b, M2. split; [reflexivity|].
  simpl in Hv. destruct Hv as [<-|[<-|[]]]; auto.
Qed.

(** The search only returns pairings of the free vertices. *)
Lemma pm_search_sound (fuel : nat) (es : list edge) :
  forall free M, List.NoDup free -> pm_search fuel es free = Some M ->
                 pairing es free M.
Proof.
  assert (Hnil : pairing es [] []).
  { repeat split; simpl; try tauto. constructor. }
  induction fuel as [|fuel IH]; intros [|v rest] M ND H; simpl in H;
    try discriminate; try (injection H as <-; exact Hnil).
  apply first_some_Some in H as (u & Hu & Hf).
  destruct (edge_in (v, u) es) eqn:E; [|discriminate].
  destruct (pm_search fuel es (remove_vertex u rest)) as [M'|] eqn:S;
    simpl in Hf; [|discriminate].
  injection Hf as <-.
  apply List.NoDup_cons_iff in ND as [Hv ND].
  apply IH in S as (A & B & C); [|now apply NoDup_remove_vertex].
  assert (Hvu : v <> u) by (intros ->; contradiction).
  assert (Hv' : ~ In v (endpoints M')).
  { intros Hin. apply C, In_remove_vertex in Hin. tauto. }
  assert (Hu' : ~ In u (endpoints M')).
  { intros Hin. apply C, In_remove_vertex in Hin. tauto. }
  split; [|split].
  - intros e [<-|He]; auto.
  - simpl. constructor; [|constructor; assumption].
    simpl. intros [Heq|Hin]; [now apply Hvu | contradiction].
  - intros w. simpl. rewrite C, In_remove_vertex. split.
    + intros [<-|[<-|[Hin _]]]; auto.
    + intros [<-|Hin]; auto.
      destruct (Nat.eq_dec u w) as [->|Hne]; auto.
Qed.

(** Dropping one edge of a pairing frees exactly its two end points. *)
Lemma pairing_drop (es : list edge) (free : list vertex)
    (M1 M2 : list edge) (a b : vertex) :
  pairing es free (M1 ++ (a, b) :: M2) ->
  a <> b /\ In a free /\ In b free /\ edge_in (a, b) es = true /\
  forall free',
    (forall w, In w free' <-> In w free /\ w <> a /\ w <> b) ->
    pairing es free' (M1 ++ M2).
Proof.
  intros (A & B & C).
  rewrite endpoints_app in B, C.
  change (endpoints ((a, b) :: M2)) with (a :: b :: endpoints M2) in B, C.
  destruct (List.NoDup_remove _ _ _ B) as [B1 Ha].
  destruct (List.NoDup_remove _ _ _ B1) as [B2 Hb].
  split.
  { intros ->. apply Ha. apply in_or_app. right. now left. }
  split.
  { apply C. apply in_or_app. right. now left. }
  split.
  { apply C. apply in_or_app. right. right. now left. }
  split.
  { apply A. apply in_or_app. right. now left. }
  intros free' Hfree. split; [|split].
  - intros e He. apply A. apply in_app_or in He. apply in_or_app.
    destruct He; [now left | right; now right].
  - rewrite endpoints_app. assumption.
  - intros w. rewrite endpoints_app, Hfree, <- C, !in_app_iff. simpl.
    rewrite in_app_iff in Ha, Hb. simpl in Ha.
    split.
    + intros H. split; [tauto|]. split; intros ->; tauto.
    + intros [[H|[H|[H|H]]] [Hna Hnb]]; auto; congruence.
Qed.

Lemma pairing_peel (es : list edge) (v u : vertex) (rest : list vertex)
    (M1 M2 : list edge) (a b : vertex) :
  List.NoDup (v :: rest) ->
  pairing es (v :: rest) (M1 ++ (a, b) :: M2) ->
  (v = a /\ u = b) \/ (v = b /\ u = a) ->
  In u rest /\ edge_in (v, u) es = true /\
  pairing es (remove_vertex u rest) (M1 ++ M2).
Proof.
  intros ND HM Hvu.
  destruct (pairing_drop _ _ _ _ _ _ HM) as (Hab & Ia & Ib & Eab & Hdrop).
  apply List.NoDup_cons_iff in ND as [Hv ND].
  assert (Hu : In u rest /\ edge_in (v, u) es = true /\ v <> u /\
               ((v = a /\ u = b) \/ (v = b /\ u = a))).
  { destruct Hvu as [[-> ->]|[-> ->]].
    - repeat split; auto. destruct Ib as [Heq|Hin]; [congruence | assumption].
    - repeat split; auto.
      + destruct Ia as [Heq|Hin]; [congruence | assumption].
      + now rewrite edge_in_flip. }
  destruct Hu as (Hu1 & Hu2 & Hne & Hcase).
  split; [assumption|]. split; [assumption|].
  apply Hdrop. intros w. rewrite In_remove_vertex. simpl.
  split.
  - intros [Hin Hwu]. split; [now right|].
    destruct Hcase as [[<- <-]|[<- <-]]; split; auto; intros ->; contradiction.
  - intros [[Heq|Hin] [Hna Hnb]].
    + destruct Hcase as [[<- <-]|[<- <-]]; congruence.
    + split; [assumption|]. destruct Hcase as [[<- <-]|[<- <-]]; assumption.
Qed.

(** The search finds a pairing whenever there is one. *)
Lemma pm_search_complete (fuel : nat) (es : list edge) :
  forall free M, List.NoDup free -> length free <= fuel ->
                 pairing es free M ->
                 exists M', pm_search fuel es free = Some M'.
Proof.
  induction fuel as [|fuel IH]; intros [|v rest] M ND Hlen HM; simpl;
    eauto; simpl in Hlen; [lia|].
  assert (Hv : In v (endpoints M)).
  { destruct HM as (_ & _ & C). apply C. now left. }
  destruct (endpoints_split _ _ Hv) as (M1 & a & b & M2 & -> & Hab).
  set (u := if Nat.eq_dec v a then b else a).
  assert (Hvu : (v = a /\ u = b) \/ (v = b /\ u = a)).
  { unfold u. destruct (Nat.eq_dec v a) as [->|Hne]; [now left|].
    destruct Hab; [contradiction | now right]. }
  destruct (pairing_peel _ _ _ _ _ _ _ _ ND HM Hvu) as (Hu & E & HM').
  apply List.NoDup_cons_iff in ND as [_ ND].
  destruct (IH (remove_vertex u rest) (M1 ++ M2)) as [M' S]; auto.
  { now apply NoDup_remove_vertex. }
  { pose proof (length_remove_vertex u rest). lia. }
  apply (first_some_hit _ rest u ((v, u) :: M')); [assumption|].
  now rewrite E, S.
Qed.

End SearchFacts.

Section ValidatorFacts.

Lemma edge_in_exists (e : edge) (es : list edge) :
  edge_in e es = true <-> exists f, In f es /\ same_edge e f = true.
Proof. unfold edge_in. apply existsb_exists. Qed.

Lemma endpoints_In (w : vertex) (M : list edge) :
  In w (endpoints M) <-> exists e, In e M /\ (w = fst e \/ w = snd e).
Proof.
  unfold endpoints. rewrite List.in_flat_map. split.
  - intros (e & He & [<-|[<-|[]]]); eauto.
  - intros (e & He & [->| ->]); exists e; simpl; auto.
Qed.

Lemma perfect_intro (G : gobj) (M : list edge) :
  (forall e, In e M -> edge_in e (ob_edges G) = true) ->
  List.NoDup (endpoints M) ->
  (forall w, In w (ob_vertices G) -> In w (endpoints M)) ->
  is_perfect_matching G M = true.
Proof.
  intros A B C. unfold is_perfect_matching.
  rewrite !andb_true_iff. split; [split|].
  - now apply nodupb_NoDup.
  - apply forallb_forall. exact A.
  - apply forallb_forall. intros v Hv. now apply mem_In, C.
Qed.

Lemma pairing_perfect (G : gobj) (M : list edge) :
  pairing (ob_edges G) (ob_vertices G) M -> is_perfect_matching G M = true.
Proof.
  intros (A & B & C). apply perfect_intro; auto. intros w. apply C.
Qed.

Lemma perfect_pairing (G : gobj) (M : list edge) :
  well_formed G -> is_perfect_matching G M = true ->
  pairing (ob_edges G) (ob_vertices G) M.
Proof.
  intros [_ Hends]. unfold is_perfect_matching.
  rewrite !andb_true_iff. intros [[A B] C].
  apply nodupb_NoDup in A.
  unfold is_matching_of in B. rewrite forallb_forall in B.
  unfold covers in C. rewrite forallb_forall in C.
  split; [exact B|]. split; [exact A|].
  intros w. split.
  - rewrite endpoints_In. intros (e & He & Hw).
    apply B, edge_in_exists in He as (f & Hf & Hs).
    destruct (Hends f Hf) as [H1 H2].
    unfold same_edge in Hs.
    rewrite orb_true_iff, !andb_true_iff, !Nat.eqb_eq in Hs.
    destruct Hs as [[E1 E2]|[E1 E2]], Hw as [->| ->]; congruence.
  - intros Hw. apply mem_In. now apply C.
Qed.

Lemma pairing_even (es : list edge) (free : list vertex) (M : list edge) :
  List.NoDup free -> pairing es free M -> Nat.odd (length free) = false.
Proof.
  intros ND (_ & B & C).
  assert (P : Permutation (endpoints M) free)
    by (apply Permutation.NoDup_Permutation; assumption).
  rewrite <- (Permutation_length P).
  assert (L : length (endpoints M) = 2 * length M).
  { clear. induction M as [|e M IH]; simpl; [reflexivity | lia]. }
  rewrite L, <- Nat.negb_even, Nat.even_mul. reflexivity.
Qed.

(** The Matching Finder keeps its contract: what it returns is a perfect
    matching, and it returns one whenever there is one. *)
Lemma find_perfect_matching_sound (G : gobj) (M : list edge) :
  List.NoDup (ob_vertices G) -> find_perfect_matching G = Some M ->
  is_perfect_matching G M = true.
Proof.
  unfold find_perfect_matching. intros ND H.
  destruct (Nat.odd (order G)); [discriminate|].
  now apply pairing_perfect, (pm_search_sound (order G)).
Qed.

Lemma find_perfect_matching_complete (G : gobj) (M : list edge) :
  well_formed G -> is_perfect_matching G M = true ->
  exists M', find_perfect_matching G = Some M'.
Proof.
  intros WF HM. pose proof (perfect_pairing _ _ WF HM) as HP.
  destruct WF as [ND _]. unfold find_perfect_matching, order.
  rewrite (pairing_even _ _ _ ND HP).
  now apply (pm_search_complete _ _ _ M).
Qed.

(** The direct test of the Certifier is exact. *)
Lemma extends_to_pm_sound (G : gobj) (e : edge) :
  List.NoDup (ob_vertices G) -> has_edge G e = true ->
  extends_to_pm G e = true -> coverable G e.
Proof.
  intros ND He. unfold extends_to_pm.
  rewrite andb_true_iff, negb_true_iff. intros [Hl H].
  destruct (pm_search _ _ _) as [M|] eqn:S; [clear H | discriminate].
  apply pm_search_sound in S as (A & B & C);
    [|now apply NoDup_remove_vertex, NoDup_remove_vertex].
  destruct e as [a b]. unfold is_loop in Hl. simpl in *.
  apply Nat.eqb_neq in Hl.
  assert (Ha : ~ In a (endpoints M)).
  { intros Hin. apply C in Hin. rewrite !In_remove_vertex in Hin. tauto. }
  assert (Hb : ~ In b (endpoints M)).
  { intros Hin. apply C in Hin. rewrite !In_remove_vertex in Hin. tauto. }
  exists ((a, b) :: M). split.
  - apply perfect_intro.
    + intros e [<-|Hin]; [exact He | now apply A].
    + simpl. constructor; [|constructor; assumption].
      simpl. intros [Heq|Hin]; [congruence | contradiction].
    + intros w Hw. simpl.
      destruct (Nat.eq_dec a w) as [->|Hna]; [now left|].
      destruct (Nat.eq_dec b w) as [->|Hnb]; [right; now left|].
      right. right. apply C. rewrite !In_remove_vertex. auto.
  - simpl. now rewrite same_edge_refl.
Qed.

Lemma extends_to_pm_complete (G : gobj) (e : edge) :
  well_formed G -> coverable G e -> extends_to_pm G e = true.
Proof.
  intros WF (M & HM & He).
  pose proof (perfect_pairing _ _ WF HM) as HP. destruct WF as [ND _].
  apply edge_in_exists in He as ([a b] & Hf & Hs).
  destruct (List.in_split _ _ Hf) as (M1 & M2 & ->).
  destruct (pairing_drop _ _ _ _ _ _ HP) as (Hab & _ & _ & _ & Hdrop).
  unfold same_edge in Hs. simpl in Hs.
  rewrite orb_true_iff, !andb_true_iff, !Nat.eqb_eq in Hs.
  assert (Hfree : forall w,
             In w (remove_vertex (snd e) (remove_vertex (fst e) (ob_vertices G)))
             <-> In w (ob_vertices G) /\ w <> a /\ w <> b).
  { intros w. rewrite !In_remove_vertex.
    destruct Hs as [[-> ->]|[-> ->]]; tauto. }
  unfold extends_to_pm. apply andb_true_iff. split.
  - unfold is_loop. apply negb_true_iff, Nat.eqb_neq.
    destruct Hs as [[-> ->]|[-> ->]]; congruence.
  - destruct (pm_search_complete (order G) (ob_edges G)
                (remove_vertex (snd e) (remove_vertex (fst e) (ob_vertices G)))
                (M1 ++ M2)) as [M' ->]; auto.
    + now apply NoDup_remove_vertex, NoDup_remove_vertex.
    + unfold order.
      pose proof (length_remove_vertex (snd e) (remove_vertex (fst e) (ob_vertices G))).
      pose proof (length_remove_vertex (fst e) (ob_vertices G)). lia.
Qed.

(** Whatever matching the resolution step settles on is a perfect
    matching of the graph. *)
Lemma resolve_matching_sound (G : gobj) (matching : option (list edge))
    (M : list edge) :
  List.NoDup (ob_vertices G) -> resolve_matching G matching = inl M ->
  is_perfect_matching G M = true.
Proof.
  intros ND. unfold resolve_matching. destruct matching as [M0|].
  - unfold is_perfect_matching.
    destruct (is_matching M0) eqn:E1, (is_matching_of G M0) eqn:E2,
             (covers G M0) eqn:E3; simpl; intros H; try discriminate H.
    injection H as <-. now rewrite E1, E2, E3.
  - destruct (find_perfect_matching G) as [M0|] eqn:F; [|discriminate].
    intros [= <-]. now apply find_perfect_matching_sound.
Qed.

(** A supplied perfect matching is taken as it is. *)
Lemma resolve_matching_supplied (G : gobj) (M : list edge) :
  is_perfect_matching G M = true -> resolve_matching G (Some M) = inl M.
Proof.
  unfold is_perfect_matching, resolve_matching.
  rewrite !andb_true_iff. now intros [[-> ->] ->].
Qed.

(** The certification step rejects as soon as one edge is FORBIDDEN. *)
Lemma find_forbidden (G : gobj) (M : list edge) (e : edge) :
  In e (ob_edges G) -> classify_edge G M e = FORBIDDEN ->
  exists ev, List.find (fun ev => is_forbidden (snd ev)) (classify_edges G M)
             = Some ev.
Proof.
  intros Hin Hc.
  destruct (List.find _ (classify_edges G M)) as [ev|] eqn:F; [eauto|].
  exfalso.
  assert (Hin' : In (e, FORBIDDEN) (classify_edges G M)).
  { unfold classify_edges. apply in_map_iff. exists e. now rewrite Hc. }
  pose proof (List.find_none _ _ F _ Hin') as H. discriminate H.
Qed.

(** The validator looks at the vertices and the edges only. *)
Lemma validate_ext (G H : gobj) (matching : option (list edge)) :
  ob_vertices G = ob_vertices H -> ob_edges G = ob_edges H ->
  validate G matching = validate H matching.
Proof.
  intros Hv He.
  unfold validate, resolve_matching, find_perfect_matching, classify_edges,
    classify_edge, extends_to_pm, is_connected, has_loops, covers,
    is_matching_of, has_edge, order.
  now rewrite Hv, He.
Qed.






Lemma connected_query (G : gobj) :
  well_formed G -> connected G -> is_connected G = true.
Proof. intros [ND _] H. now apply is_connected_correct. Qed.

End ValidatorFacts.

(** * Running the constructor *)

Section Execution.

Lemma kw_flag_forced (kwds : option dict) (d : bool) :
  Graph.kw_flag (forced kwds) "loops" d = false.
Proof.
  unfold Graph.kw_flag, forced. destruct kwds as [kw|].
  - now rewrite lookup_insert_eq.
  - now rewrite lookup_singleton_eq.
Qed.

Lemma fresh_lookup (h : heap) : h !! fresh (dom h) = None.
Proof. apply not_elem_of_dom. apply is_fresh. Qed.

Lemma fresh_ne (h : heap) (l : loc) (G : gobj) :
  h !! l = Some G -> fresh (dom h) <> l.
Proof. intros H E. rewrite <- E, fresh_lookup in H. discriminate. Qed.

(** [Graph.__init__] from a graph instance: the copy, or the rejection of
    a loop. *)
Lemma Graph_init_exec (self l : loc) (s d : gobj) (args : list pyval)
    (kw : dict) (h : heap) :
  h !! self = Some s -> h !! l = Some d ->
  Graph.__init__ self (VRef l) args kw h =
  match (if Graph.kw_flag kw "loops" (ob_loops d) then None
         else List.find is_loop (ob_edges d)) with
  | Some e => (Raise (loop_error (fst e) (snd e)), h)
  | None =>
      (Return tt,
       <[self := {| ob_class := ob_class s;
                    ob_vertices := ob_vertices d;
                    ob_edges := ob_edges d;
                    ob_loops := Graph.kw_flag kw "loops" (ob_loops d);
                    ob_multiedges :=
                      Graph.kw_flag kw "multiedges" (ob_multiedges d) |}]> h)
  end.
Proof.
  intros Hs Hd. unfold Graph.__init__, bind, read, write, raise.
  rewrite Hs, Hd.
  destruct (if Graph.kw_flag kw "loops" (ob_loops d) then None
            else List.find is_loop (ob_edges d)); reflexivity.
Qed.

(** The keyword step of [__init__]. *)
Lemma init_loops_requested self data matching algorithm solver verbose tol
    args kwds (h : heap) :
  loops_requested kwds = true ->
  __init__ self data matching algorithm solver verbose tol args kwds h
  = (Raise loops_error, h).
Proof.
  unfold loops_requested, __init__, bind, raise.
  destruct kwds as [kw|]; [|discriminate].
  destruct (kw !! "loops") as [v|]; [|discriminate].
  now intros ->.
Qed.

Lemma init_keywords self data matching algorithm solver verbose tol
    args kwds (h : heap) :
  loops_requested kwds = false ->
  __init__ self data matching algorithm solver verbose tol args kwds h
  = match data with
    | VNone => (Raise (ValueError "the graph is trivial"), h)
    | _ =>
        (let! is_mcg := isinstance data MatchingCoveredGraph_cls in
         if is_mcg then Graph.__init__ self data args (forced kwds)
         else
           let! is_graph := isinstance data Graph_cls in
           if is_graph then
             let! _ := Graph.__init__ self data args (forced kwds) in
             _upgrade_from_graph self matching algorithm solver verbose tol
           else raise (ValueError "input data is of unknown type")) h
    end.
Proof.
  unfold loops_requested, __init__, forced.
  destruct kwds as [kw|].
  - destruct (kw !! "loops") as [v|]; [intros ->|intros _];
      destruct data; reflexivity.
  - intros _. destruct data; reflexivity.
Qed.

Lemma issubclass_mcg (c : pyclass) :
  issubclass c MatchingCoveredGraph_cls = pyclass_eqb c MatchingCoveredGraph_cls.
Proof. now destruct c. Qed.

Lemma mcg_is_graph (G : gobj) :
  is_mcg G = true -> issubclass (ob_class G) Graph_cls = true.
Proof. unfold is_mcg. now destruct (ob_class G). Qed.

(** Data that is already a matching covered graph is copied, and that is
    all. *)
Lemma init_from_mcg self l (G : gobj) matching algorithm solver verbose tol
    args kwds (h : heap) :
  loops_requested kwds = false -> h !! l = Some G -> is_mcg G = true ->
  __init__ self (VRef l) matching algorithm solver verbose tol args kwds h
  = Graph.__init__ self (VRef l) args (forced kwds) h.
Proof.
  intros Hk Hl Hc. rewrite init_keywords by assumption.
  unfold bind, isinstance. rewrite Hl, issubclass_mcg.
  unfold is_mcg in Hc. now rewrite Hc.
Qed.

(** Data that is a plain graph is copied and then certified. *)
Lemma init_from_graph self l (G : gobj) matching algorithm solver verbose tol
    args kwds (h : heap) :
  loops_requested kwds = false -> h !! l = Some G -> is_mcg G = false ->
  issubclass (ob_class G) Graph_cls = true ->
  __init__ self (VRef l) matching algorithm solver verbose tol args kwds h
  = (let! _ := Graph.__init__ self (VRef l) args (forced kwds) in
     _upgrade_from_graph self matching algorithm solver verbose tol) h.
Proof.
  intros Hk Hl Hc Hg. rewrite init_keywords by assumption.
  unfold bind, isinstance. rewrite Hl, issubclass_mcg.
  unfold is_mcg in Hc. rewrite Hc, Hl, Hg. reflexivity.
Qed.

Lemma upgrade_exec self (S : gobj) matching algorithm solver verbose tol
    (h : heap) :
  h !! self = Some S ->
  _upgrade_from_graph self matching algorithm solver verbose tol h
  = (match is_matching_covered S matching algorithm solver verbose tol with
     | Return true => Return tt
     | Return false => Raise not_covered
     | Raise e => Raise e
     end, h).
Proof.
  intros Hs. unfold _upgrade_from_graph, try_except, bind, read, lift, raise, ret.
  rewrite Hs.
  destruct (is_matching_covered S matching algorithm solver verbose tol)
    as [[|]|e]; reflexivity.
Qed.

(** The four ways a call of the class can go. *)
Lemma new_loops data matching algorithm solver verbose tol args kwds (h : heap) :
  loops_requested kwds = true ->
  new data matching algorithm solver verbose tol args kwds h
  = (Raise loops_error, <[fresh (dom h) := blank]> h).
Proof.
  intros Hk. unfold new, bind at 1, alloc.
  unfold bind. now rewrite init_loops_requested.
Qed.

Lemma new_None matching algorithm solver verbose tol args kwds (h : heap) :
  loops_requested kwds = false ->
  new VNone matching algorithm solver verbose tol args kwds h
  = (Raise (ValueError "the graph is trivial"), <[fresh (dom h) := blank]> h).
Proof.
  intros Hk. unfold new, bind at 1, alloc.
  unfold bind. now rewrite init_keywords.
Qed.

Lemma made_copy (G : gobj) (kwds : option dict) :
  {| ob_class := ob_class blank;
     ob_vertices := ob_vertices G;
     ob_edges := ob_edges G;
     ob_loops := Graph.kw_flag (forced kwds) "loops" (ob_loops G);
     ob_multiedges := Graph.kw_flag (forced kwds) "multiedges" (ob_multiedges G) |}
  = made G (forced kwds).
Proof. unfold made. now rewrite kw_flag_forced. Qed.

Lemma lookup_alloc (h : heap) (l : loc) (G : gobj) :
  h !! l = Some G -> <[fresh (dom h) := blank]> h !! l = Some G.
Proof.
  intros Hl. rewrite lookup_insert_ne; [assumption | now apply (fresh_ne h l G)].
Qed.

Lemma new_from_mcg l (G : gobj) matching algorithm solver verbose tol
    args kwds (h : heap) :
  loops_requested kwds = false ->
  <[fresh (dom h) := blank]> h !! l = Some G -> is_mcg G = true ->
  new (VRef l) matching algorithm solver verbose tol args kwds h
  = match List.find is_loop (ob_edges G) with
    | Some e => (Raise (loop_error (fst e) (snd e)), <[fresh (dom h) := blank]> h)
    | None => (Return (fresh (dom h)),
               <[fresh (dom h) := made G (forced kwds)]> h)
    end.
Proof.
  intros Hk Hl Hc.
  unfold new, bind at 1, alloc. unfold bind at 1.
  rewrite (init_from_mcg _ _ G) by assumption.
  rewrite (Graph_init_exec _ _ blank G);
    [|apply lookup_insert_eq | assumption].
  rewrite made_copy, kw_flag_forced.
  destruct (List.find is_loop (ob_edges G)); [reflexivity|].
  unfold ret. now rewrite insert_insert_eq.
Qed.

Lemma new_from_graph l (G : gobj) matching algorithm solver verbose tol
    args kwds (h : heap) :
  loops_requested kwds = false ->
  <[fresh (dom h) := blank]> h !! l = Some G -> is_mcg G = false ->
  issubclass (ob_class G) Graph_cls = true ->
  new (VRef l) matching algorithm solver verbose tol args kwds h
  = match List.find is_loop (ob_edges G) with
    | Some e => (Raise (loop_error (fst e) (snd e)), <[fresh (dom h) := blank]> h)
    | None =>
        (match is_matching_covered (made G (forced kwds)) matching algorithm
                                   solver verbose tol with
         | Return true => Return (fresh (dom h))
         | Return false => Raise not_covered
         | Raise e => Raise e
         end,
         <[fresh (dom h) := made G (forced kwds)]> h)
    end.
Proof.
  intros Hk Hl Hc Hg.
  unfold new, bind at 1, alloc. unfold bind at 1.
  rewrite (init_from_graph _ _ G) by assumption.
  unfold bind at 1.
  rewrite (Graph_init_exec _ _ blank G);
    [|apply lookup_insert_eq | assumption].
  rewrite made_copy, kw_flag_forced.
  destruct (List.find is_loop (ob_edges G)); [reflexivity|].
  rewrite insert_insert_eq.
  rewrite (upgrade_exec _ (made G (forced kwds))) by apply lookup_insert_eq.
  unfold ret.
  destruct (is_matching_covered _ _ _ _ _ _) as [[|]|e]; reflexivity.
Qed.

Lemma new_unknown data matching algorithm solver verbose tol args kwds (h : heap) :
  loops_requested kwds = false -> data <> VNone ->
  (forall l G, data = VRef l -> <[fresh (dom h) := blank]> h !! l = Some G ->
               issubclass (ob_class G) Graph_cls = false) ->
  new data matching algorithm solver verbose tol args kwds h
  = (Raise (ValueError "input data is of unknown type"),
     <[fresh (dom h) := blank]> h).
Proof.
  intros Hk Hn Hd. unfold new, bind at 1, alloc. unfold bind at 1.
  rewrite init_keywords by assumption.
  destruct data as [| | | |l]; try contradiction; try reflexivity.
  unfold bind, isinstance.
  destruct (<[fresh (dom h) := blank]> h !! l) as [G|] eqn:Hl;
    rewrite ?Hl; [|reflexivity].
  rewrite issubclass_mcg.
  pose proof (Hd l G eq_refl Hl) as Hg.
  assert (Hc : pyclass_eqb (ob_class G) MatchingCoveredGraph_cls = false)
    by (destruct (ob_class G); try discriminate Hg; reflexivity).
  rewrite Hc, ?Hl, Hg. reflexivity.
Qed.

(** Whatever the arguments, a call of the class changes the heap at the
    new location only, and what it leaves there has no loop and does not
    allow any. *)
Lemma new_heap data matching algorithm solver verbose tol args kwds (h : heap) :
  exists S,
    snd (new data matching algorithm solver verbose tol args kwds h)
    = <[fresh (dom h) := S]> h /\
    is_mcg S = true /\ ob_loops S = false /\ has_loops S = false.
Proof.
  assert (Hb : exists S, <[fresh (dom h) := blank]> h = <[fresh (dom h) := S]> h /\
                         is_mcg S = true /\ ob_loops S = false /\
                         has_loops S = false).
  { exists blank. auto. }
  assert (Hm : forall G kw, List.find is_loop (ob_edges G) = None ->
             exists S, <[fresh (dom h) := made G kw]> h = <[fresh (dom h) := S]> h /\
                       is_mcg S = true /\ ob_loops S = false /\
                       has_loops S = false).
  { intros G kw Hf. exists (made G kw). repeat split.
    unfold has_loops. simpl. now apply find_none_existsb. }
  destruct (loops_requested kwds) eqn:Hk.
  { now rewrite new_loops. }
  destruct data as [| | | |l];
    try (rewrite new_unknown by (auto; discriminate); exact Hb).
  { now rewrite new_None. }
  destruct (<[fresh (dom h) := blank]> h !! l) as [G|] eqn:Hl.
  - destruct (is_mcg G) eqn:Hc; [|destruct (issubclass (ob_class G) Graph_cls) eqn:Hg].
    + rewrite (new_from_mcg l G) by assumption.
      destruct (List.find is_loop (ob_edges G)) eqn:Hf; simpl; auto.
    + rewrite (new_from_graph l G) by assumption.
      destruct (List.find is_loop (ob_edges G)) eqn:Hf; simpl; auto.
    + rewrite new_unknown; auto.
      intros l' G' [= <-] HG'. rewrite Hl in HG'. now injection HG' as <-.
  - rewrite new_unknown; auto.
    intros l' G' [= <-] HG'. rewrite Hl in HG'. discriminate.
Qed.

End Execution.

(** * The loop policy *)

Section LoopPolicy.

Lemma allow_loops_exec (self : loc) (v check : pyval) (h : heap) :
  allow_loops self v check h
  = if is_True v then (Raise loops_error, h) else (Return tt, h).
Proof. unfold allow_loops. now destruct (is_True v). Qed.

Lemma is_True_iff (v : pyval) : is_True v = true <-> v = VBool true.
Proof. destruct v as [|[|]| | |]; simpl; split; congruence. Qed.

Lemma add_edge_heap (self : loc) (u v : vertex) (h : heap) :
  snd (Graph.add_edge self u v h) = h \/
  exists G, h !! self = Some G /\
            (Nat.eqb u v && negb (ob_loops G) = false) /\
            snd (Graph.add_edge self u v h)
            = <[self := {| ob_class := ob_class G;
                           ob_vertices := add_vertex v (add_vertex u (ob_vertices G));
                           ob_edges := if negb (ob_multiedges G) && has_edge G (u, v)
                                       then ob_edges G
                                       else ob_edges G ++ [(u, v)];
                           ob_loops := ob_loops G;
                           ob_multiedges := ob_multiedges G |}]> h.
Proof.
  unfold Graph.add_edge, bind, read, write, raise.
  destruct (h !! self) as [G|] eqn:Hs; [|now left].
  destruct (Nat.eqb u v && negb (ob_loops G)) eqn:E; [now left|].
  right. exists G. auto.
Qed.

(** Every operation keeps the matching covered graphs of the heap free
    of loops. *)
Lemma op_loop_free (h h' : heap) : loop_free h -> op h h' -> loop_free h'.
Proof.
  intros Inv Hop. destruct Hop.
  - destruct (new_heap data matching algorithm solver verbose tol args kwds h)
      as (S & -> & Hc & Hl & Hn).
    intros l G. rewrite lookup_insert.
    destruct (decide (fresh (dom h) = l)) as [_|_]; [|apply Inv].
    intros [= <-] _. auto.
  - rewrite allow_loops_exec. now destruct (is_True v).
  - destruct (add_edge_heap self u v h) as [->|(G & Hs & E & ->)]; [assumption|].
    intros l G'. rewrite lookup_insert.
    destruct (decide (self = l)) as [<-|_]; [|apply Inv].
    intros [= <-] Hc. destruct (Inv self G Hs Hc) as [Hl Hn].
    simpl. split; [assumption|].
    unfold has_loops in *. simpl.
    destruct (negb (ob_multiedges G) && has_edge G (u, v)); [assumption|].
    rewrite existsb_app, Hn. simpl.
    rewrite Hl, andb_true_r in E. unfold is_loop. simpl. now rewrite E.
  - intros l' G'. rewrite lookup_insert.
    destruct (decide (l = l')) as [<-|_]; [|apply Inv].
    intros [= <-] Hc. congruence.
Qed.

Lemma rtc_loop_free (h h' : heap) : loop_free h -> rtc op h h' -> loop_free h'.
Proof.
  intros Inv Hrtc. induction Hrtc as [h|h1 h2 h3 Hop _ IH]; [assumption|].
  apply IH. now apply (op_loop_free h1).
Qed.

Lemma reachable_loop_free (h : heap) : reachable h -> loop_free h.
Proof.
  intros (h0 & H0 & Hrtc). apply (rtc_loop_free h0); [|assumption].
  intros l G Hl Hc. specialize (H0 l G Hl). congruence.
Qed.

(** C10: [allow_loops(new)] with anything but [True] for [new] is a
    silent no-op: it returns, leaves the heap as it is and does not look
    at [check]; it raises exactly when [new is True]; and the keyword
    [loops=True] is examined before [data], so that
    [MatchingCoveredGraph(None, loops=True)] raises the loop error, not
    the trivial-graph error. *)
Theorem allow_loops_noop_unless_True :
  (forall self v check h,
      is_True v = false -> allow_loops self v check h = (Return tt, h)) /\
  (forall self v check h,
      (exists e, fst (allow_loops self v check h) = Raise e) <-> v = VBool true) /\
  (forall self check h,
      allow_loops self (VBool true) check h = (Raise loops_error, h)) /\
  (forall self v check check' h,
      allow_loops self v check h = allow_loops self v check' h) /\
  (forall matching algorithm solver verbose tol args kw v h,
      kw !! "loops" = Some v -> truthy v = true ->
      fst (new VNone matching algorithm solver verbose tol args (Some kw) h)
      = Raise loops_error) /\
  loops_error <> ValueError "the graph is trivial".
Proof.
  split; [|split; [|split; [|split; [|split]]]];
    [| | |intros; now rewrite !allow_loops_exec| |].
  - intros self v check h Hv. now rewrite allow_loops_exec, Hv.
  - intros self v check h. rewrite allow_loops_exec, <- is_True_iff.
    destruct (is_True v); simpl; split; try congruence; eauto.
    intros [e He]. discriminate.
  - intros self check h. now rewrite allow_loops_exec.
  - intros matching algorithm solver verbose tol args kw v h Hkw Hv.
    rewrite new_loops; [reflexivity|]. simpl. now rewrite Hkw.
  - discriminate.
Qed.

Lemma allow_loops_noop_unless_True_witness :
  allow_loops 0 (VInt 1) (VBool true) heap0 = (Return tt, heap0) /\
  fst (construct VNone None {["loops" := VBool true]} heap0) = Raise loops_error.
Proof.
  destruct allow_loops_noop_unless_True as (H1 & _ & _ & _ & H4 & _).
  split.
  - apply H1. reflexivity.
  - apply (H4 _ _ _ _ _ _ _ (VBool true)); reflexivity.
Defined.

(** C1: no operation can bring a loop into a matching covered graph:
    the constructor called with a true [loops] keyword raises the loop
    error whatever the data, [allow_loops(True)] raises the same error,
    and in every reachable heap every matching covered graph is free of
    loops, answers [False] to [allows_loops()] and rejects
    [add_edge(v, v)]. *)
Theorem no_loops_ever :
  (forall data matching algorithm solver verbose tol args kw v h,
      kw !! "loops" = Some v -> truthy v = true ->
      fst (new data matching algorithm solver verbose tol args (Some kw) h)
      = Raise loops_error) /\
  (forall self check h,
      allow_loops self (VBool true) check h = (Raise loops_error, h)) /\
  (forall h, reachable h ->
     forall l G, h !! l = Some G -> is_mcg G = true ->
       has_loops G = false /\
       Graph.allows_loops l h = (Return false, h) /\
       forall v, Graph.add_edge l v v h = (Raise (loop_error v v), h)).
Proof.
  split; [|split].
  - intros data matching algorithm solver verbose tol args kw v h Hkw Hv.
    rewrite new_loops; [reflexivity|]. simpl. now rewrite Hkw.
  - intros self check h. now rewrite allow_loops_exec.
  - intros h Hr l G Hl Hc.
    destruct (reachable_loop_free h Hr l G Hl Hc) as [Hf Hn].
    split; [assumption|]. split.
    + unfold Graph.allows_loops, bind, read, ret. now rewrite Hl, Hf.
    + intros v. unfold Graph.add_edge, bind, read, raise.
      now rewrite Hl, Hf, Nat.eqb_refl.
Qed.

Lemma cycle4_certified_reachable :
  reachable (snd (construct (VRef 0) None ∅ {[0 := cycle4]})).
Proof.
  exists {[0 := cycle4]}. split.
  - intros l G Hl. apply lookup_singleton_Some in Hl as [_ <-]. reflexivity.
  - apply rtc_once. apply op_new.
Qed.

Lemma no_loops_ever_witness :
  fst (construct (VRef 0) None {["loops" := VInt 1]} heap0) = Raise loops_error /\
  Graph.add_edge 1 7 7 (snd (construct (VRef 0) None ∅ {[0 := cycle4]}))
  = (Raise (loop_error 7 7), snd (construct (VRef 0) None ∅ {[0 := cycle4]})).
Proof.
  destruct no_loops_ever as (H1 & _ & H3).
  split.
  - apply (H1 _ _ _ _ _ _ _ _ (VInt 1)); reflexivity.
  - apply (H3 _ cycle4_certified_reachable 1 (made cycle4 (forced (Some ∅))));
      reflexivity.
Defined.

End LoopPolicy.

(** * Construction as a copy *)

Section Copy.

Lemma eq_same (G H : gobj) :
  ob_loops G = ob_loops H -> ob_multiedges G = ob_multiedges H ->
  ob_vertices G = ob_vertices H -> ob_edges G = ob_edges H ->
  Graph.__eq__ G H = true.
Proof.
  intros Hl Hm Hv He. unfold Graph.__eq__, has_edge, order.
  rewrite Hl, Hm, Hv, He, !Bool.eqb_reflx, !Nat.eqb_refl.
  assert (V : forallb (fun v => mem v (ob_vertices H)) (ob_vertices H) = true).
  { apply forallb_forall. intros v. apply mem_In. }
  assert (E : forallb (fun e => edge_in e (ob_edges H)) (ob_edges H) = true).
  { apply forallb_forall. intros e. apply In_edge_in. }
  now rewrite V, E.
Qed.

Lemma eq_loops (G H : gobj) :
  Graph.__eq__ G H = true -> ob_loops G = ob_loops H.
Proof.
  unfold Graph.__eq__. rewrite !andb_true_iff.
  intros [[[[[[[Hl _] _] _] _] _] _] _]. now apply Bool.eqb_prop.
Qed.

Lemma has_loops_find (G : gobj) :
  has_loops G = false -> List.find is_loop (ob_edges G) = None.
Proof. intros H. now apply find_none_existsb. Qed.

Lemma kw_flag_absent (kw : dict) (k : string) (d : bool) :
  kw !! k = None -> Graph.kw_flag kw k d = d.
Proof. unfold Graph.kw_flag. now intros ->. Qed.

(** Allocation followed by [Graph.__init__] alone. *)
Lemma copy_exec l (G : gobj) args kwds (h : heap) :
  <[fresh (dom h) := blank]> h !! l = Some G ->
  (let! s := alloc blank in
   let! _ := Graph.__init__ s (VRef l) args (forced kwds) in
   ret s) h
  = match List.find is_loop (ob_edges G) with
    | Some e => (Raise (loop_error (fst e) (snd e)), <[fresh (dom h) := blank]> h)
    | None => (Return (fresh (dom h)), <[fresh (dom h) := made G (forced kwds)]> h)
    end.
Proof.
  intros Hl. unfold bind at 1, alloc. unfold bind at 1.
  rewrite (Graph_init_exec _ _ blank G);
    [|apply lookup_insert_eq | assumption].
  rewrite made_copy, kw_flag_forced.
  destruct (List.find is_loop (ob_edges G)); [reflexivity|].
  unfold ret. now rewrite insert_insert_eq.
Qed.

(** C9: when [data] is already a matching covered graph, the outcome of
    the constructor does not depend on [matching], [algorithm], [solver],
    [verbose] and [integrality_tolerance]; unless the keyword [loops] is
    given a true value, [__init__] is [Graph.__init__] on the forced
    keywords and nothing else: nothing is validated or certified, and
    the call returns the copy whatever matching was supplied. *)
Theorem certified_data_is_only_copied
    (self l : loc) (H : gobj) (h : heap) (args : list pyval)
    (kwds : option dict) :
  h !! l = Some H -> is_mcg H = true ->
  (forall matching algorithm solver verbose tol matching' algorithm' solver'
          verbose' tol',
      __init__ self (VRef l) matching algorithm solver verbose tol args kwds h
      = __init__ self (VRef l) matching' algorithm' solver' verbose' tol'
                 args kwds h /\
      new (VRef l) matching algorithm solver verbose tol args kwds h
      = new (VRef l) matching' algorithm' solver' verbose' tol' args kwds h) /\
  (loops_requested kwds = false ->
   forall matching algorithm solver verbose tol,
      __init__ self (VRef l) matching algorithm solver verbose tol args kwds h
      = Graph.__init__ self (VRef l) args (forced kwds) h) /\
  (loops_requested kwds = false -> has_loops H = false ->
   forall matching algorithm solver verbose tol,
      new (VRef l) matching algorithm solver verbose tol args kwds h
      = (Return (fresh (dom h)), <[fresh (dom h) := made H (forced kwds)]> h)).
Proof.
  intros Hl Hc. split; [|split].
  - intros. destruct (loops_requested kwds) eqn:Hk.
    + now rewrite !init_loops_requested, !new_loops.
    + rewrite !(init_from_mcg _ _ H), !(new_from_mcg l H);
        auto using lookup_alloc.
  - intros Hk matching algorithm solver verbose tol.
    now apply (init_from_mcg _ _ H).
  - intros Hk Hn matching algorithm solver verbose tol.
    rewrite (new_from_mcg l H); auto using lookup_alloc.
    now rewrite has_loops_find.
Qed.

Lemma certified_data_is_only_copied_witness :
  new (VRef 0) (Some [(0, 1); (0, 2)]) "LP" None 3%Z (1, 0)%Z [] (Some ∅)
      {[0 := made cycle4 ∅]}
  = (Return 1, <[1 := made (made cycle4 ∅) (forced (Some ∅))]> {[0 := made cycle4 ∅]}).
Proof.
  refine (proj2 (proj2 (certified_data_is_only_copied
                          1 0 (made cycle4 ∅) {[0 := made cycle4 ∅]} [] (Some ∅)
                          _ _)) _ _ _ _ _ _ _); reflexivity.
Defined.

(** C6: certification is idempotent: in every reachable heap,
    constructing a matching covered graph from a matching covered graph
    [H] succeeds, and the new object has the state of [H], so that it
    compares equal to it; [H] itself stays as it was. *)
Theorem certification_idempotent (h : heap) (l : loc) (H : gobj) :
  reachable h -> h !! l = Some H -> is_mcg H = true ->
  exists l' h',
    new_default (VRef l) h = (Return l', h') /\
    l' <> l /\ h' !! l = Some H /\ h' !! l' = Some H /\
    Graph.__eq__ H H = true.
Proof.
  intros Hr Hl Hc. destruct (reachable_loop_free h Hr l H Hl Hc) as [Hf Hn].
  exists (fresh (dom h)), (<[fresh (dom h) := H]> h).
  assert (Hm : made H (forced (Some ∅)) = H).
  { unfold made. rewrite kw_flag_absent by reflexivity.
    unfold is_mcg in Hc. destruct H as [c vs es lo mu]. simpl in *.
    destruct c; try discriminate Hc. now subst lo. }
  split; [|split; [|split; [|split]]].
  - unfold new_default. rewrite (new_from_mcg l H); auto using lookup_alloc.
    now rewrite has_loops_find, Hm.
  - now apply (fresh_ne h l H).
  - rewrite lookup_insert_ne; [assumption | now apply (fresh_ne h l H)].
  - apply lookup_insert_eq.
  - apply eq_same; reflexivity.
Qed.

Lemma certification_idempotent_witness :
  exists l' h',
    new_default (VRef 1) (snd (construct (VRef 0) None ∅ {[0 := cycle4]}))
    = (Return l', h') /\
    l' <> 1 /\
    h' !! 1 = Some (made cycle4 (forced (Some ∅))) /\
    h' !! l' = Some (made cycle4 (forced (Some ∅))) /\
    Graph.__eq__ (made cycle4 (forced (Some ∅))) (made cycle4 (forced (Some ∅)))
    = true.
Proof.
  apply certification_idempotent.
  - exact cycle4_certified_reachable.
  - reflexivity.
  - reflexivity.
Defined.

(** C7, as the code has it: a successful construction is the allocation
    of the instance followed by the copy that [Graph.__init__] makes, and
    nothing more: the matching (supplied or computed) is used by the
    check only and leaves no trace in the object, so that two successful
    constructions from the same data in the same heap, with whatever
    matchings, give the same object in the same heap. *)
Theorem construction_keeps_no_matching
    data matching algorithm solver verbose tol args kwds (h : heap)
    (self : loc) (h' : heap) :
  new data matching algorithm solver verbose tol args kwds h = (Return self, h') ->
  (let! s := alloc blank in
   let! _ := Graph.__init__ s data args (forced kwds) in
   ret s) h = (Return self, h') /\
  forall matching' algorithm' solver' verbose' tol' self' h'',
    new data matching' algorithm' solver' verbose' tol' args kwds h
    = (Return self', h'') ->
    self' = self /\ h'' = h'.
Proof.
  intros Hnew.
  destruct (loops_requested kwds) eqn:Hk.
  { rewrite new_loops in Hnew by assumption. discriminate. }
  destruct data as [| | | |l];
    try (rewrite new_unknown in Hnew by (auto; discriminate); discriminate).
  { rewrite new_None in Hnew by assumption. discriminate. }
  destruct (<[fresh (dom h) := blank]> h !! l) as [G|] eqn:Hl.
  2: { rewrite new_unknown in Hnew;
         [discriminate Hnew | assumption | discriminate |].
       intros l' G' [= <-] HG'. rewrite Hl in HG'. discriminate. }
  rewrite (copy_exec l G) by assumption.
  destruct (is_mcg G) eqn:Hc; [|destruct (issubclass (ob_class G) Graph_cls) eqn:Hg].
  - rewrite (new_from_mcg l G) in Hnew by assumption.
    split; [assumption|]. intros *. rewrite (new_from_mcg l G) by assumption.
    rewrite Hnew. now intros [= <- <-].
  - rewrite (new_from_graph l G) in Hnew by assumption.
    destruct (List.find is_loop (ob_edges G)) eqn:Hf; [discriminate|].
    destruct (is_matching_covered _ _ _ _ _ _) as [[|]|e]; try discriminate.
    injection Hnew as <- <-. split; [reflexivity|].
    intros *. rewrite (new_from_graph l G), Hf by assumption.
    destruct (is_matching_covered _ _ _ _ _ _) as [[|]|e]; try discriminate.
    now intros [= <- <-].
  - rewrite new_unknown in Hnew;
      [discriminate Hnew | assumption | discriminate |].
    intros l' G' [= <-] HG'. rewrite Hl in HG'. now injection HG' as <-.
Qed.

Lemma construction_keeps_no_matching_witness :
  (let! s := alloc blank in
   let! _ := Graph.__init__ s (VRef 0) [] (forced (Some ∅)) in
   ret s) heap0 = (Return 6, <[6 := made cycle4 (forced (Some ∅))]> heap0).
Proof.
  refine (proj1 (construction_keeps_no_matching
                   (VRef 0) (Some [(0, 1); (2, 3)]) "Edmonds" None 0%Z (1, -3)%Z
                   [] (Some ∅) heap0 6 (<[6 := made cycle4 (forced (Some ∅))]> heap0)
                   _)).
  vm_compute. reflexivity.
Defined.

(** C7, as the claim states it, fails: no accessor on the constructed
    object can give back the perfect matching that was used.  The cycle
    0-1-2-3-0 is certified with the matching {01,23} and with the
    matching {12,30}; both calls succeed and build the same object. *)
Lemma matching_not_retained :
  ~ (exists matching_of : gobj -> list edge,
       forall M l h' S,
         construct (VRef 0) (Some M) ∅ heap0 = (Return l, h') ->
         h' !! l = Some S ->
         forall e, edge_in e (matching_of S) = edge_in e M).
Proof.
  intros [matching_of Hm].
  set (S := made cycle4 (forced (Some ∅))).
  assert (H1 : construct (VRef 0) (Some [(0, 1); (2, 3)]) ∅ heap0
               = (Return 6, <[6 := S]> heap0)) by (vm_compute; reflexivity).
  assert (H2 : construct (VRef 0) (Some [(1, 2); (3, 0)]) ∅ heap0
               = (Return 6, <[6 := S]> heap0)) by (vm_compute; reflexivity).
  assert (HS : <[6 := S]> heap0 !! 6 = Some S) by apply lookup_insert_eq.
  pose proof (Hm _ _ _ _ H1 HS (0, 1)) as E1.
  pose proof (Hm _ _ _ _ H2 HS (0, 1)) as E2.
  rewrite E1 in E2. vm_compute in E2. discriminate E2.
Qed.

(** C8, as the code has it: construction does not touch what is already
    in the heap, the input graph included, whether it succeeds or fails.
    When [MatchingCoveredGraph(G)] succeeds for a loop-free graph [G],
    the new object has the vertices, the edges and the multiedge policy
    of [G] and does not allow loops; so it compares equal to [G] exactly
    when [G] does not allow loops either. *)
Theorem construction_frames_input
    data matching algorithm solver verbose tol args kwds (h : heap) :
  (forall l G, h !! l = Some G ->
     snd (new data matching algorithm solver verbose tol args kwds h) !! l
     = Some G) /\
  (forall l G self h',
     h !! l = Some G -> has_loops G = false ->
     new_default (VRef l) h = (Return self, h') ->
     exists S, h' !! self = Some S /\ self <> l /\ h' !! l = Some G /\
               ob_vertices S = ob_vertices G /\ ob_edges S = ob_edges G /\
               ob_multiedges S = ob_multiedges G /\ ob_loops S = false /\
               (Graph.__eq__ S G = true <-> ob_loops G = false)).
Proof.
  split.
  - intros l G Hl.
    destruct (new_heap data matching algorithm solver verbose tol args kwds h)
      as (S & -> & _).
    rewrite lookup_insert_ne; [assumption | now apply (fresh_ne h l G)].
  - intros l G self h' Hl Hn Hnew. unfold new_default in Hnew.
    assert (Hmade : self = fresh (dom h) /\
                    h' = <[fresh (dom h) := made G (forced (Some ∅))]> h).
    { pose proof (lookup_alloc h l G Hl) as Hl'.
      destruct (is_mcg G) eqn:Hc;
        [|destruct (issubclass (ob_class G) Graph_cls) eqn:Hg].
      - rewrite (new_from_mcg l G) in Hnew by (assumption || reflexivity).
        destruct (List.find is_loop (ob_edges G)); [discriminate|].
        now injection Hnew as <- <-.
      - rewrite (new_from_graph l G) in Hnew by (assumption || reflexivity).
        destruct (List.find is_loop (ob_edges G)); [discriminate|].
        destruct (is_matching_covered _ _ _ _ _ _) as [[|]|e]; try discriminate.
        now injection Hnew as <- <-.
      - rewrite new_unknown in Hnew;
          [discriminate Hnew | reflexivity | discriminate |].
        intros l' G' [= <-] HG'. rewrite Hl' in HG'. now injection HG' as <-. }
    destruct Hmade as [-> ->].
    assert (Hmu : ob_multiedges (made G (forced (Some ∅))) = ob_multiedges G)
      by reflexivity.
    exists (made G (forced (Some ∅))). split; [apply lookup_insert_eq|].
    split; [now apply (fresh_ne h l G)|].
    split; [rewrite lookup_insert_ne; [assumption | now apply (fresh_ne h l G)]|].
    split; [reflexivity|]. split; [reflexivity|]. split; [exact Hmu|].
    split; [reflexivity|]. split.
    + intros E. apply eq_loops in E. now rewrite <- E.
    + intros Hl0. apply eq_same; auto.
Qed.

Lemma construction_frames_input_witness :
  snd (new_default (VRef 0) heap0) !! 0 = Some cycle4 /\
  exists S, <[6 := made cycle4 (forced (Some ∅))]> heap0 !! 6 = Some S /\
            6 <> 0 /\
            <[6 := made cycle4 (forced (Some ∅))]> heap0 !! 0 = Some cycle4 /\
            ob_vertices S = ob_vertices cycle4 /\ ob_edges S = ob_edges cycle4 /\
            ob_multiedges S = ob_multiedges cycle4 /\ ob_loops S = false /\
            (Graph.__eq__ S cycle4 = true <-> ob_loops cycle4 = false).
Proof.
  destruct (construction_frames_input (VRef 0) None "Edmonds" None 0%Z (1, -3)%Z
              [] (Some ∅) heap0) as [H1 H2].
  split.
  - apply H1. reflexivity.
  - apply (H2 0 cycle4 6); [reflexivity | reflexivity |].
    vm_compute. reflexivity.
Defined.

(** C8, as the claim states it, fails: the cycle 0-1-2-3-0 held in a
    graph that allows loops (and has none) is accepted, and the new
    object, which never allows loops, does not compare equal to it. *)
Lemma certified_copy_not_equal_when_loops_allowed :
  new_default (VRef 0) {[0 := looped_cycle4]}
  = (Return 1, <[1 := made looped_cycle4 (forced (Some ∅))]> {[0 := looped_cycle4]}) /\
  ob_vertices (made looped_cycle4 (forced (Some ∅))) = ob_vertices looped_cycle4 /\
  ob_edges (made looped_cycle4 (forced (Some ∅))) = ob_edges looped_cycle4 /\
  Graph.__eq__ (made looped_cycle4 (forced (Some ∅))) looped_cycle4 = false.
Proof. vm_compute. repeat split; reflexivity. Qed.

End Copy.

(** * Certification of a plain graph *)

Section Certification.

Lemma is_matching_covered_made (G : gobj) (kw : dict) matching algorithm solver
    verbose tol :
  is_matching_covered (made G kw) matching algorithm solver verbose tol
  = is_matching_covered G matching algorithm solver verbose tol.
Proof.
  unfold is_matching_covered. now rewrite (validate_ext (made G kw) G).
Qed.

Lemma find_loop_has_loops (G : gobj) (e : edge) :
  List.find is_loop (ob_edges G) = Some e -> has_loops G = true.
Proof.
  intros H. unfold has_loops. destruct (existsb is_loop (ob_edges G)) eqn:E;
    [reflexivity|].
  apply find_none_existsb in E. congruence.
Qed.

(** Construction from a plain graph without loops: the outcome is the
    answer of the check. *)
Lemma new_plain l (G : gobj) matching algorithm solver verbose tol
    args kwds (h : heap) :
  loops_requested kwds = false -> h !! l = Some G -> is_mcg G = false ->
  issubclass (ob_class G) Graph_cls = true -> has_loops G = false ->
  new (VRef l) matching algorithm solver verbose tol args kwds h
  = (match is_matching_covered G matching algorithm solver verbose tol with
     | Return true => Return (fresh (dom h))
     | Return false => Raise not_covered
     | Raise e => Raise e
     end,
     <[fresh (dom h) := made G (forced kwds)]> h).
Proof.
  intros Hk Hl Hc Hg Hn.
  rewrite (new_from_graph l G); auto using lookup_alloc.
  now rewrite has_loops_find, is_matching_covered_made.
Qed.

Lemma validate_structure (G : gobj) (matching : option (list edge)) :
  2 <= order G -> has_loops G = false -> is_connected G = true ->
  validate G matching
  = match resolve_matching G matching with
    | inr r => REJECTED r
    | inl M =>
        match List.find (fun ev => is_forbidden (snd ev)) (classify_edges G M) with
        | Some ev => REJECTED (EDGE_NOT_COVERED (fst ev))
        | None => ACCEPTED M
        end
    end.
Proof.
  intros Ho Hn Hc. unfold validate.
  destruct (Nat.ltb_spec (order G) 2) as [Hlt|_]; [lia|].
  now rewrite Hn, Hc.
Qed.

(** C2, as the code has it: when the keyword [loops] is not given a true
    value, construction from [None] raises the trivial-graph error, and
    so does construction from a plain, loop-free graph with no vertex or
    with a single vertex; no object is handed out. *)
Theorem trivial_graph_rejected
    matching algorithm solver verbose tol args kwds (h : heap) :
  loops_requested kwds = false ->
  fst (new VNone matching algorithm solver verbose tol args kwds h)
  = Raise (ValueError "the graph is trivial") /\
  forall l G,
    h !! l = Some G -> is_mcg G = false ->
    issubclass (ob_class G) Graph_cls = true ->
    order G < 2 -> has_loops G = false ->
    fst (new (VRef l) matching algorithm solver verbose tol args kwds h)
    = Raise (ValueError "the graph is trivial").
Proof.
  intros Hk. split.
  - now rewrite new_None.
  - intros l G Hl Hc Hg Ho Hn. rewrite (new_plain l G) by assumption.
    unfold is_matching_covered, validate.
    destruct (Nat.ltb_spec (order G) 2) as [_|Hge]; [reflexivity | lia].
Qed.

Lemma trivial_graph_rejected_witness :
  fst (new_default VNone heap0) = Raise (ValueError "the graph is trivial") /\
  fst (new_default (VRef 4) heap0) = Raise (ValueError "the graph is trivial") /\
  fst (new_default (VRef 5) heap0) = Raise (ValueError "the graph is trivial").
Proof.
  destruct (trivial_graph_rejected None "Edmonds" None 0%Z (1, -3)%Z [] (Some ∅)
              heap0) as [H1 H2]; [reflexivity|].
  split; [exact H1|]. split.
  - apply (H2 4 (plain [0] [])); try reflexivity. vm_compute. lia.
  - apply (H2 5 (plain [] [])); try reflexivity. vm_compute. lia.
Defined.

(** C2, as the claim states it, fails: with [loops=True] the keyword is
    rejected before [data] is looked at, and construction from [None]
    raises the loop error instead of the trivial-graph error. *)
Lemma trivial_graph_after_loops_keyword :
  fst (construct VNone None {["loops" := VBool true]} heap0) = Raise loops_error /\
  fst (construct VNone None {["loops" := VBool true]} heap0)
  <> Raise (ValueError "the graph is trivial").
Proof.
  assert (H : fst (construct VNone None {["loops" := VBool true]} heap0)
              = Raise loops_error) by (vm_compute; reflexivity).
  split; [exact H|]. rewrite H. discriminate.
Qed.


Lemma cycle4_structure :
  well_formed cycle4 /\ 2 <= order cycle4 /\ has_loops cycle4 = false /\
  connected cycle4.
Proof.
  assert (WF : well_formed cycle4).
  { split.
    - apply nodupb_NoDup. reflexivity.
    - intros e He. simpl in He.
      destruct He as [<-|[<-|[<-|[<-|[]]]]]; simpl; auto 10. }
  split; [exact WF|]. split; [vm_compute; lia|]. split; [reflexivity|].
  apply is_connected_correct; [apply WF | reflexivity].
Qed.




(** The certification step answers [False] on an edge that lies in no
    perfect matching, and names such an edge. *)
Lemma uncovered_edge_found (G : gobj) (matching : option (list edge)) (e : edge) :
  well_formed G -> 2 <= order G -> has_loops G = false -> is_connected G = true ->
  (exists M, is_perfect_matching G M = true) ->
  In e (ob_edges G) -> ~ coverable G e ->
  (forall M, matching = Some M -> is_perfect_matching G M = true) ->
  exists e', In e' (ob_edges G) /\ ~ coverable G e' /\
             validate G matching = REJECTED (EDGE_NOT_COVERED e').
Proof.
  intros WF Ho Hn Hcon [Mp Hp] He Hunc Hm.
  rewrite validate_structure by assumption.
  assert (HM : exists M0, resolve_matching G matching = inl M0 /\
                          is_perfect_matching G M0 = true).
  { destruct matching as [M|].
    - exists M. split; [|now apply Hm].
      apply resolve_matching_supplied. now apply Hm.
    - destruct (find_perfect_matching_complete G Mp WF Hp) as [M' HM'].
      exists M'. unfold resolve_matching. rewrite HM'. split; [reflexivity|].
      apply find_perfect_matching_sound; [apply WF | assumption]. }
  destruct HM as (M0 & -> & HM0).
  assert (Hc : classify_edge G M0 e = FORBIDDEN).
  { unfold classify_edge.
    destruct (edge_in e M0) eqn:E1.
    - exfalso. apply Hunc. now exists M0.
    - destruct (extends_to_pm G e) eqn:E2; [|reflexivity].
      exfalso. apply Hunc. apply extends_to_pm_sound; auto; [apply WF|].
      now apply In_edge_in. }
  destruct (find_forbidden G M0 e He Hc) as [ev Hev]. rewrite Hev.
  apply List.find_some in Hev as [Hin Hf].
  unfold classify_edges in Hin. apply in_map_iff in Hin as (e' & <- & He').
  exists e'. split; [assumption|]. split; [|reflexivity].
  intros Hcov. simpl in Hf. unfold classify_edge in Hf.
  rewrite (extends_to_pm_complete G e' WF Hcov) in Hf.
  destruct (edge_in e' M0); discriminate Hf.
Qed.

(** C4: for a plain graph, construction succeeds exactly when the
    certification check answers true; and when the graph is connected,
    nontrivial and loop-free, has a perfect matching, and has an edge
    that lies in no perfect matching, construction (with no matching or
    with a perfect matching supplied) is rejected with "input graph is
    not matching covered", the check naming an uncovered edge. *)
Theorem uncovered_edge_rejected
    l (G : gobj) matching algorithm solver verbose tol args kwds (h : heap) :
  loops_requested kwds = false -> h !! l = Some G -> is_mcg G = false ->
  issubclass (ob_class G) Graph_cls = true ->
  ((exists self,
       fst (new (VRef l) matching algorithm solver verbose tol args kwds h)
       = Return self) <->
   is_matching_covered G matching algorithm solver verbose tol = Return true) /\
  (well_formed G -> 2 <= order G -> has_loops G = false -> connected G ->
   (exists M, is_perfect_matching G M = true) ->
   (exists e, In e (ob_edges G) /\ ~ coverable G e) ->
   (forall M, matching = Some M -> is_perfect_matching G M = true) ->
   fst (new (VRef l) matching algorithm solver verbose tol args kwds h)
   = Raise not_covered /\
   exists e, In e (ob_edges G) /\ ~ coverable G e /\
             validate G matching = REJECTED (EDGE_NOT_COVERED e)).
Proof.
  intros Hk Hl Hc Hg. split.
  - destruct (has_loops G) eqn:Hn.
    + rewrite (new_from_graph l G); auto using lookup_alloc.
      destruct (List.find is_loop (ob_edges G)) eqn:Hf.
      2: { apply find_none_existsb in Hf. unfold has_loops in Hn. congruence. }
      unfold is_matching_covered, validate. rewrite Hn.
      destruct (Nat.ltb (order G) 2); simpl; split;
        try discriminate; intros [self Hs]; discriminate.
    + rewrite (new_plain l G) by assumption.
      destruct (is_matching_covered G matching algorithm solver verbose tol)
        as [[|]|e]; simpl; split; try discriminate; eauto;
        intros [self Hs]; discriminate.
  - intros WF Ho Hn Hcon Hp (e & He & Hunc) Hm.
    apply connected_query in Hcon; [|assumption].
    destruct (uncovered_edge_found G matching e) as (e' & He' & Hunc' & Hv); auto.
    split; [|eauto].
    rewrite (new_plain l G) by assumption.
    unfold is_matching_covered. now rewrite Hv.
Qed.

Lemma path4_middle_edge :
  well_formed path4 /\ In (1, 2) (ob_edges path4) /\ ~ coverable path4 (1, 2).
Proof.
  assert (WF : well_formed path4).
  { split.
    - apply nodupb_NoDup. reflexivity.
    - intros e He. simpl in He.
      destruct He as [<-|[<-|[<-|[]]]]; simpl; auto 10. }
  split; [exact WF|]. split; [simpl; auto|].
  intros Hcov. apply (extends_to_pm_complete _ _ WF) in Hcov.
  vm_compute in Hcov. discriminate Hcov.
Qed.

Lemma uncovered_edge_rejected_witness :
  fst (new_default (VRef 1) heap0) = Raise not_covered /\
  exists e, In e (ob_edges path4) /\ ~ coverable path4 e /\
            validate path4 None = REJECTED (EDGE_NOT_COVERED e).
Proof.
  destruct path4_middle_edge as (WF & He & Hunc).
  refine (proj2 (uncovered_edge_rejected 1 path4 None "Edmonds" None 0%Z (1, -3)%Z
                   [] (Some ∅) heap0 _ _ _ _) WF _ _ _ _ _ _);
    try reflexivity.
  - vm_compute. lia.
  - apply is_connected_correct; [apply WF | reflexivity].
  - exists [(0, 1); (2, 3)]. reflexivity.
  - exists (1, 2). split; assumption.
  - intros M HM. discriminate HM.
Defined.

(** ** Complete graphs *)

Lemma CompleteGraph_edge (n i j : nat) :
  In (i, j) (ob_edges (Graph.CompleteGraph n)) <-> i < j < n.
Proof.
  simpl. rewrite List.in_flat_map. split.
  - intros (k & Hk & Hin). apply in_map_iff in Hin as (m & [= <- <-] & Hm).
    apply List.in_seq in Hk, Hm. lia.
  - intros Hij. exists i. split; [apply List.in_seq; lia|].
    apply in_map_iff. exists j. split; [reflexivity|]. apply List.in_seq. lia.
Qed.

Lemma CompleteGraph_loop_free (n : nat) :
  has_loops (Graph.CompleteGraph n) = false.
Proof.
  unfold has_loops. destruct (existsb _ _) eqn:E; [|reflexivity].
  apply existsb_exists in E as ([i j] & Hin & Hl).
  apply CompleteGraph_edge in Hin. unfold is_loop in Hl. simpl in Hl.
  apply Nat.eqb_eq in Hl. lia.
Qed.

Lemma closure_S (vs : list vertex) (es : list edge) (fuel : nat)
    (reach : list vertex) :
  closure vs es (S fuel) reach = closure vs es fuel (expand vs es reach).
Proof. reflexivity. Qed.

Lemma CompleteGraph_connected (n : nat) :
  is_connected (Graph.CompleteGraph n) = true.
Proof.
  unfold is_connected, order.
  destruct n as [|n]; [reflexivity|].
  change (ob_vertices (Graph.CompleteGraph (S n))) with (0 :: seq 1 n).
  change (length (0 :: seq 1 n)) with (S (length (seq 1 n))).
  apply forallb_forall. intros w Hw.
  apply mem_In. rewrite closure_S.
  apply (closure_grows (Graph.CompleteGraph (S n))).
  unfold expand. apply in_or_app.
  destruct Hw as [<-|Hw]; [left; now left|].
  right. apply List.filter_In. split; [now right|].
  apply List.in_seq in Hw.
  apply andb_true_iff. split.
  - apply negb_true_iff, mem_false. simpl. lia.
  - apply existsb_exists. exists 0. split; [now left|].
    apply In_edge_in, CompleteGraph_edge. lia.
Qed.





End Certification.

(** * The string representation *)

Section Representation.

Lemma lower_char_idem (c : ascii) :
  Str.lower_char (Str.lower_char c) = Str.lower_char c.
Proof. destruct c as [[] [] [] [] [] [] [] []]; reflexivity. Qed.

Lemma lower_upper_char (c : ascii) :
  Str.lower_char (Str.upper_char c) = Str.lower_char c.
Proof. destruct c as [[] [] [] [] [] [] [] []]; reflexivity. Qed.

Lemma upper_char_idem (c : ascii) :
  Str.upper_char (Str.upper_char c) = Str.upper_char c.
Proof. destruct c as [[] [] [] [] [] [] [] []]; reflexivity. Qed.

Lemma lower_idem (s : string) : Str.lower (Str.lower s) = Str.lower s.
Proof.
  induction s as [|c s IH]; simpl; [reflexivity|].
  now rewrite lower_char_idem, IH.
Qed.

Lemma lower_capitalize (s : string) :
  Str.lower (Str.capitalize s) = Str.lower s.
Proof.
  destruct s as [|c s]; simpl; [reflexivity|].
  now rewrite lower_upper_char, lower_idem.
Qed.

Lemma capitalize_idem (s : string) :
  Str.capitalize (Str.capitalize s) = Str.capitalize s.
Proof.
  destruct s as [|c s]; simpl; [reflexivity|].
  now rewrite upper_char_idem, lower_idem.
Qed.

Lemma lower_append (a b : string) :
  Str.lower (String.append a b) = String.append (Str.lower a) (Str.lower b).
Proof. induction a as [|c a IH]; simpl; [reflexivity | now rewrite IH]. Qed.

Lemma prefix_append (p x : string) : String.prefix p (String.append p x) = true.
Proof.
  induction p as [|c p IH]; simpl.
  - now destruct x.
  - destruct (ascii_dec c c) as [_|Hne]; [exact IH | now contradiction Hne].
Qed.

Lemma contains_prefix (p s : string) :
  String.prefix p s = true -> Str.contains p s = true.
Proof. intros H. destruct s; cbn [Str.contains]; now rewrite H. Qed.

Lemma length_lower (s : string) : String.length (Str.lower s) = String.length s.
Proof. induction s as [|c s IH]; simpl; [reflexivity | now rewrite IH]. Qed.

Lemma capitalize_prefixed (x : string) :
  Str.capitalize (String.append "matching covered " x)
  = String.append "Matching covered " (Str.lower x).
Proof.
  change (String.append "matching covered " x)
    with (String "m" (String.append "atching covered " x)).
  unfold Str.capitalize. rewrite lower_append. reflexivity.
Qed.

Lemma length_append (a b : string) :
  String.length (String.append a b) = String.length a + String.length b.
Proof. induction a as [|c a IH]; simpl; [reflexivity | now rewrite IH]. Qed.

(** The lower-case form of the representation, in both branches. *)
Lemma lower_repr (graph_repr : string) :
  Str.lower (__repr__ graph_repr)
  = if Str.contains "matching covered" (Str.lower graph_repr)
    then Str.lower graph_repr
    else String.append "matching covered " (Str.lower graph_repr).
Proof.
  unfold __repr__.
  destruct (Str.contains "matching covered" (Str.lower graph_repr)).
  - now rewrite lower_capitalize, lower_idem.
  - now rewrite lower_append, lower_idem.
Qed.

Lemma contains_lower_repr (graph_repr : string) :
  Str.contains "matching covered" (Str.lower (__repr__ graph_repr)) = true.
Proof.
  rewrite lower_repr.
  destruct (Str.contains "matching covered" (Str.lower graph_repr)) eqn:E;
    [exact E|].
  apply contains_prefix.
  apply (prefix_append "matching covered"
           (String.append " " (Str.lower graph_repr))).
Qed.

(** X1: whatever [Graph._repr_] gives for the graph, the representation
    of a matching covered graph mentions "matching covered" (up to letter
    case). *)
Theorem repr_mentions_matching_covered (graph_repr : string) :
  Str.is_ascii graph_repr = true ->
  Str.contains "matching covered" (Str.lower (__repr__ graph_repr)) = true.
Proof. intros _. apply contains_lower_repr. Qed.

Lemma repr_mentions_matching_covered_witness :
  Str.contains "matching covered"
    (Str.lower (__repr__ "Petersen graph: Graph on 10 vertices")) = true.
Proof. apply repr_mentions_matching_covered. reflexivity. Defined.

(** X2: the prefix is never added twice: applying [__repr__] to a
    representation that [__repr__] produced gives it back unchanged. *)
Theorem repr_idempotent (graph_repr : string) :
  Str.is_ascii graph_repr = true ->
  __repr__ (__repr__ graph_repr) = __repr__ graph_repr.
Proof.
  intros _. unfold __repr__ at 1. rewrite contains_lower_repr, lower_repr.
  unfold __repr__.
  destruct (Str.contains "matching covered" (Str.lower graph_repr));
    [reflexivity|].
  now rewrite capitalize_prefixed, lower_idem.
Qed.

Lemma repr_idempotent_witness :
  __repr__ (__repr__ "Petersen graph: Graph on 10 vertices")
  = __repr__ "Petersen graph: Graph on 10 vertices".
Proof. apply repr_idempotent. reflexivity. Defined.

(** X3: the representation is in capitalised form and loses nothing but
    letter case: in lower case it is the lower-case representation of the
    graph, with "matching covered " in front exactly when the latter does
    not mention it; so its length is that of the graph's representation,
    or 17 more. *)
Theorem repr_capitalised (graph_repr : string) :
  Str.is_ascii graph_repr = true ->
  Str.capitalize (__repr__ graph_repr) = __repr__ graph_repr /\
  (if Str.contains "matching covered" (Str.lower graph_repr)
   then Str.lower (__repr__ graph_repr) = Str.lower graph_repr /\
        String.length (__repr__ graph_repr) = String.length graph_repr
   else Str.lower (__repr__ graph_repr)
        = String.append "matching covered " (Str.lower graph_repr) /\
        String.length (__repr__ graph_repr) = 17 + String.length graph_repr).
Proof.
  intros _. split.
  - unfold __repr__.
    destruct (Str.contains "matching covered" (Str.lower graph_repr)).
    + apply capitalize_idem.
    + change (Str.capitalize (String.append "Matching covered " (Str.lower graph_repr)))
        with (String "M" (Str.lower (String.append "atching covered "
                                                   (Str.lower graph_repr)))).
      now rewrite lower_append, lower_idem.
  - pose proof (lower_repr graph_repr) as HL.
    pose proof (length_lower (__repr__ graph_repr)) as Hlen.
    rewrite HL in Hlen.
    destruct (Str.contains "matching covered" (Str.lower graph_repr)).
    + split; [exact HL|]. now rewrite <- Hlen, length_lower.
    + split; [exact HL|]. now rewrite <- Hlen, length_append, length_lower.
Qed.

Lemma repr_capitalised_witness :
  Str.capitalize (__repr__ "Matching covered K4: Graph on 4 vertices")
  = __repr__ "Matching covered K4: Graph on 4 vertices" /\
  Str.lower (__repr__ "Matching covered K4: Graph on 4 vertices")
  = Str.lower "Matching covered K4: Graph on 4 vertices" /\
  String.length (__repr__ "Matching covered K4: Graph on 4 vertices")
  = String.length "Matching covered K4: Graph on 4 vertices".
Proof.
  destruct (repr_capitalised "Matching covered K4: Graph on 4 vertices")
    as [H1 H2]; [reflexivity|].
  split; [exact H1 | exact H2].
Defined.

End Representation.

(** * The constructor, further *)

Section Dispatch.

(** X4: with no true [loops] keyword, data that is neither [None] nor an
    instance of [Graph] (a number, a string, a digraph) is rejected with
    "input data is of unknown type", whatever the other arguments; the
    heap only gains the discarded instance. *)
Theorem unknown_data_rejected
    data matching algorithm solver verbose tol args kwds (h : heap) :
  loops_requested kwds = false -> data <> VNone -> valid_data h data ->
  (forall l G, data = VRef l -> h !! l = Some G ->
               issubclass (ob_class G) Graph_cls = false) ->
  new data matching algorithm solver verbose tol args kwds h
  = (Raise (ValueError "input data is of unknown type"),
     <[fresh (dom h) := blank]> h).
Proof.
  intros Hk Hn Hv Hd. apply new_unknown; auto.
  intros l G -> Hl. destruct (Hv l eq_refl) as [G0 HG0].
  rewrite (lookup_alloc h l G0 HG0) in Hl. injection Hl as <-.
  now apply (Hd l G0).
Qed.

Lemma unknown_data_rejected_witness :
  new (VRef 0) None "Edmonds" None 0%Z (1, -3)%Z [] (Some ∅)
      {[0 := mk_gobj DiGraph_cls [0; 1] [(0, 1); (1, 0)] false false]}
  = (Raise (ValueError "input data is of unknown type"),
     <[1 := blank]> {[0 := mk_gobj DiGraph_cls [0; 1] [(0, 1); (1, 0)] false false]}).
Proof.
  apply unknown_data_rejected.
  - reflexivity.
  - discriminate.
  - intros l [= <-]. rewrite lookup_singleton_eq. eauto.
  - intros l G [= <-] Hl. rewrite lookup_singleton_eq in Hl.
    injection Hl as <-. reflexivity.
Defined.

Lemma forced_delete_loops (kw : dict) :
  forced (Some (delete "loops" kw)) = forced (Some kw).
Proof. unfold forced. apply insert_delete_eq. Qed.

(** X5: a [loops] keyword with a false value ([False], [0], [None]) is
    the same as no [loops] keyword: the constructor does the same with
    and without it.  And in the keywords handed to [Graph.__init__],
    [loops] is [False] and every other keyword is as the caller gave it. *)
Theorem false_loops_keyword_is_no_keyword
    data matching algorithm solver verbose tol args (kw : dict) (v : pyval)
    (h : heap) :
  kw !! "loops" = Some v -> truthy v = false ->
  new data matching algorithm solver verbose tol args (Some kw) h
  = new data matching algorithm solver verbose tol args
        (Some (delete "loops" kw)) h /\
  forced (Some kw) !! "loops" = Some (VBool false) /\
  forall k, k <> "loops" -> forced (Some kw) !! k = kw !! k.
Proof.
  intros Hkw Hv. split; [|split].
  - assert (H1 : loops_requested (Some kw) = false)
      by (simpl; now rewrite Hkw).
    assert (H2 : loops_requested (Some (delete "loops" kw)) = false)
      by (simpl; now rewrite lookup_delete_eq).
    unfold new, bind at 1 3, alloc. unfold bind at 1 2.
    rewrite (init_keywords _ _ _ _ _ _ _ _ (Some kw)) by assumption.
    rewrite (init_keywords _ _ _ _ _ _ _ _ (Some (delete "loops" kw)))
      by assumption.
    now rewrite forced_delete_loops.
  - apply lookup_insert_eq.
  - intros k Hk. apply lookup_insert_ne. congruence.
Qed.

Lemma false_loops_keyword_is_no_keyword_witness :
  new (VRef 0) None "Edmonds" None 0%Z (1, -3)%Z []
      (Some (<["loops" := VInt 0]> {["multiedges" := VBool true]})) heap0
  = new (VRef 0) None "Edmonds" None 0%Z (1, -3)%Z []
        (Some (delete "loops" (<["loops" := VInt 0]> {["multiedges" := VBool true]})))
        heap0.
Proof.
  refine (proj1 (false_loops_keyword_is_no_keyword
                   (VRef 0) None "Edmonds" None 0%Z (1, -3)%Z []
                   (<["loops" := VInt 0]> {["multiedges" := VBool true]})
                   (VInt 0) heap0 _ _)); reflexivity.
Defined.

End Dispatch.

(** * What the constructor accepts *)

Section Acceptance.

(** With a perfect matching at hand, an edge is FORBIDDEN exactly when
    it lies in no perfect matching. *)
Lemma forbidden_iff (G : gobj) (M : list edge) (e : edge) :
  well_formed G -> is_perfect_matching G M = true -> In e (ob_edges G) ->
  (classify_edge G M e = FORBIDDEN <-> ~ coverable G e).
Proof.
  intros WF HM He. unfold classify_edge. split.
  - intros Hc Hcov. rewrite (extends_to_pm_complete G e WF Hcov) in Hc.
    destruct (edge_in e M); discriminate Hc.
  - intros Hunc. destruct (edge_in e M) eqn:E1.
    + exfalso. apply Hunc. now exists M.
    + destruct (extends_to_pm G e) eqn:E2; [|reflexivity].
      exfalso. apply Hunc. apply extends_to_pm_sound; auto; [apply WF|].
      now apply In_edge_in.
Qed.

(** The outcome of the certification step. *)
Lemma certification_outcome (G : gobj) (M : list edge) :
  well_formed G -> is_perfect_matching G M = true ->
  match List.find (fun ev => is_forbidden (snd ev)) (classify_edges G M) with
  | Some ev => In (fst ev) (ob_edges G) /\ ~ coverable G (fst ev)
  | None => forall e, In e (ob_edges G) -> coverable G e
  end.
Proof.
  intros WF HM.
  destruct (List.find _ (classify_edges G M)) as [ev|] eqn:F.
  - apply List.find_some in F as [Hin Hf].
    unfold classify_edges in Hin. apply in_map_iff in Hin as (e & <- & He).
    split; [assumption|]. simpl in *. apply (forbidden_iff G M e); auto.
    destruct (classify_edge G M e); try discriminate Hf; reflexivity.
  - intros e He.
    assert (Hin : In (e, classify_edge G M e) (classify_edges G M))
      by (unfold classify_edges; apply in_map_iff; eauto).
    pose proof (List.find_none _ _ F _ Hin) as Hf. simpl in Hf.
    destruct (extends_to_pm G e) eqn:E2.
    + apply extends_to_pm_sound; auto; [apply WF | now apply In_edge_in].
    + unfold classify_edge in Hf. rewrite E2 in Hf.
      destruct (edge_in e M) eqn:E1; [now exists M | discriminate Hf].
Qed.

(** A connected graph with two vertices has an edge. *)
Lemma connected_has_edge (G : gobj) :
  well_formed G -> 2 <= order G -> connected G -> exists e, In e (ob_edges G).
Proof.
  intros [ND _] Ho Hcon. unfold order in Ho.
  destruct (ob_vertices G) as [|a [|b rest]] eqn:Evs; simpl in Ho; try lia.
  assert (Hab : a <> b).
  { apply List.NoDup_cons_iff in ND as [Ha _]. intros ->. apply Ha. now left. }
  assert (Hw : rtc (joined G) a b).
  { apply Hcon; rewrite Evs; simpl; auto. }
  destruct Hw as [|a y b (He & _ & _) _]; [contradiction|].
  unfold has_edge in He. apply edge_in_exists in He as (f & Hf & _). eauto.
Qed.

(** The check answers true exactly on the matching covered graphs. *)
Lemma validate_accepts_iff (G : gobj) (matching : option (list edge)) :
  well_formed G ->
  (forall M, matching = Some M -> is_perfect_matching G M = true) ->
  ((exists M, validate G matching = ACCEPTED M) <-> matching_covered G).
Proof.
  intros WF Hm. pose proof WF as [ND _]. split.
  - intros [M HM]. unfold validate in HM.
    destruct (Nat.ltb_spec (order G) 2) as [|Ho]; [discriminate|].
    destruct (has_loops G) eqn:Hn; [discriminate|].
    destruct (is_connected G) eqn:Hcon; [|discriminate]. simpl in HM.
    destruct (resolve_matching G matching) as [M0|r] eqn:R; [|discriminate].
    pose proof (resolve_matching_sound G matching M0 ND R) as HM0.
    pose proof (certification_outcome G M0 WF HM0) as Hout.
    destruct (List.find _ (classify_edges G M0)); [discriminate|].
    repeat split; auto. now apply is_connected_correct.
  - intros (Ho & Hn & Hcon & Hcov).
    rewrite validate_structure; auto; [|now apply connected_query].
    assert (HM : exists M0, resolve_matching G matching = inl M0 /\
                            is_perfect_matching G M0 = true).
    { destruct matching as [M|].
      - exists M. split; [|now apply Hm].
        apply resolve_matching_supplied. now apply Hm.
      - destruct (connected_has_edge G WF Ho Hcon) as [f Hf].
        destruct (Hcov f Hf) as (Mp & Hp & _).
        destruct (find_perfect_matching_complete G Mp WF Hp) as [M' HM'].
        exists M'. unfold resolve_matching. rewrite HM'. split; [reflexivity|].
        now apply find_perfect_matching_sound. }
    destruct HM as (M0 & -> & HM0).
    pose proof (certification_outcome G M0 WF HM0) as Hout.
    destruct (List.find _ (classify_edges G M0)) as [ev|]; [|eauto].
    destruct Hout as [Hin Hunc]. exfalso. apply Hunc. now apply Hcov.
Qed.

Lemma is_matching_covered_true_iff (G : gobj) matching algorithm solver
    verbose tol :
  is_matching_covered G matching algorithm solver verbose tol = Return true
  <-> exists M, validate G matching = ACCEPTED M.
Proof.
  unfold is_matching_covered.
  destruct (validate G matching) as [M|[]]; split;
    try discriminate; eauto; intros [M0 H0]; discriminate H0.
Qed.

(** X6: a plain graph with at least two vertices and no loop that is not
    connected is rejected with "the graph is not connected", whatever
    matching is supplied. *)
Theorem disconnected_graph_rejected
    l (G : gobj) matching algorithm solver verbose tol args kwds (h : heap) :
  loops_requested kwds = false -> h !! l = Some G -> is_mcg G = false ->
  issubclass (ob_class G) Graph_cls = true ->
  well_formed G -> 2 <= order G -> has_loops G = false -> ~ connected G ->
  fst (new (VRef l) matching algorithm solver verbose tol args kwds h)
  = Raise (ValueError "the graph is not connected").
Proof.
  intros Hk Hl Hc Hg [ND _] Ho Hn Hcon.
  rewrite (new_plain l G) by assumption.
  unfold is_matching_covered, validate.
  destruct (Nat.ltb_spec (order G) 2) as [|_]; [lia|]. rewrite Hn.
  destruct (is_connected G) eqn:E; [|reflexivity].
  exfalso. apply Hcon. now apply is_connected_correct.
Qed.

Lemma two_edges_structure :
  well_formed two_edges /\ ~ connected two_edges.
Proof.
  assert (WF : well_formed two_edges).
  { split.
    - apply nodupb_NoDup. reflexivity.
    - intros e He. simpl in He.
      destruct He as [<-|[<-|[]]]; simpl; auto 10. }
  split; [exact WF|]. intros Hcon.
  apply is_connected_correct in Hcon; [|apply WF]. discriminate Hcon.
Qed.

Lemma disconnected_graph_rejected_witness :
  fst (construct (VRef 2) (Some [(0, 1); (2, 3)]) ∅ heap0)
  = Raise (ValueError "the graph is not connected").
Proof.
  destruct two_edges_structure as [WF Hcon].
  apply (disconnected_graph_rejected 2 two_edges); try reflexivity;
    try assumption.
  vm_compute. lia.
Defined.

(** X7: for a plain, well-formed graph without loops,
    [MatchingCoveredGraph(G)] succeeds exactly when the graph is matching
    covered as the documentation of the class defines it: connected,
    nontrivial, each edge in some perfect matching. *)
Theorem accepted_iff_matching_covered l (G : gobj) (h : heap) :
  h !! l = Some G -> is_mcg G = false ->
  issubclass (ob_class G) Graph_cls = true -> well_formed G ->
  has_loops G = false ->
  ((exists self, fst (new_default (VRef l) h) = Return self)
   <-> matching_covered G).
Proof.
  intros Hl Hc Hg WF Hn. unfold new_default.
  rewrite (new_plain l G) by (assumption || reflexivity).
  rewrite <- (validate_accepts_iff G None WF) by discriminate.
  rewrite <- (is_matching_covered_true_iff G None "Edmonds" None 0%Z (1, -3)%Z).
  destruct (is_matching_covered G None "Edmonds" None 0%Z (1, -3)%Z)
    as [[|]|e]; simpl; split; try discriminate; eauto;
    intros [self Hs]; discriminate Hs.
Qed.

Lemma accepted_iff_matching_covered_witness :
  (exists self, fst (new_default (VRef 0) heap0) = Return self)
  <-> matching_covered cycle4.
Proof.
  destruct cycle4_structure as (WF & _).
  apply accepted_iff_matching_covered; try reflexivity. exact WF.
Defined.

Lemma resolve_supplied_inv (G : gobj) (M0 M1 : list edge) :
  resolve_matching G (Some M0) = inl M1 -> M1 = M0.
Proof.
  unfold resolve_matching.
  destruct (is_matching M0), (is_matching_of G M0), (covers G M0);
    simpl; intros H; try discriminate H. now injection H.
Qed.

(** X8: supplying a perfect matching of the graph never changes the
    verdict: for a plain graph, the constructor ends the same way with
    a perfect matching supplied as with none. *)
Theorem supplied_matching_same_outcome
    l (G : gobj) (M : list edge) algorithm solver verbose tol args kwds
    (h : heap) :
  loops_requested kwds = false -> h !! l = Some G -> is_mcg G = false ->
  issubclass (ob_class G) Graph_cls = true -> well_formed G ->
  is_perfect_matching G M = true ->
  new (VRef l) (Some M) algorithm solver verbose tol args kwds h
  = new (VRef l) None algorithm solver verbose tol args kwds h.
Proof.
  intros Hk Hl Hc Hg WF HM.
  rewrite !(new_from_graph l G); auto using lookup_alloc.
  destruct (List.find is_loop (ob_edges G)); [reflexivity|].
  rewrite !is_matching_covered_made.
  assert (E : is_matching_covered G (Some M) algorithm solver verbose tol
              = is_matching_covered G None algorithm solver verbose tol);
    [|now rewrite E].
  unfold is_matching_covered, validate.
  destruct (Nat.ltb (order G) 2); [reflexivity|].
  destruct (has_loops G); [reflexivity|].
  destruct (is_connected G); [|reflexivity].
  rewrite (resolve_matching_supplied G M HM).
  destruct (find_perfect_matching_complete G M WF HM) as [M0 HM0].
  unfold resolve_matching. rewrite HM0. cbn [negb].
  pose proof (find_perfect_matching_sound G M0 (proj1 WF) HM0) as HP0.
  pose proof (certification_outcome G M WF HM) as H1.
  pose proof (certification_outcome G M0 WF HP0) as H2.
  destruct (List.find _ (classify_edges G M)) as [ev|],
           (List.find _ (classify_edges G M0)) as [ev0|]; try reflexivity.
  - exfalso. destruct H1 as [Hin Hunc]. apply Hunc. now apply H2.
  - exfalso. destruct H2 as [Hin Hunc]. apply Hunc. now apply H1.
Qed.

Lemma supplied_matching_same_outcome_witness :
  construct (VRef 0) (Some [(1, 2); (3, 0)]) ∅ heap0
  = construct (VRef 0) None ∅ heap0.
Proof.
  destruct cycle4_structure as (WF & _).
  apply (supplied_matching_same_outcome 0 cycle4); try reflexivity. exact WF.
Defined.

(** X9: an object that the constructor hands out for a plain graph is
    matching covered, whatever matching, algorithm and keywords were
    given: the check has passed on it. *)
Theorem handed_out_is_matching_covered
    l (G : gobj) matching algorithm solver verbose tol args kwds (h : heap)
    (self : loc) (h' : heap) :
  h !! l = Some G -> is_mcg G = false -> well_formed G ->
  new (VRef l) matching algorithm solver verbose tol args kwds h
  = (Return self, h') ->
  exists S, h' !! self = Some S /\ is_mcg S = true /\ well_formed S /\
            matching_covered S.
Proof.
  intros Hl Hc WF Hnew. pose proof (lookup_alloc h l G Hl) as Hl'.
  destruct (loops_requested kwds) eqn:Hk.
  { rewrite new_loops in Hnew by assumption. discriminate. }
  assert (Hmade : h' = <[self := made G (forced kwds)]> h /\ matching_covered G).
  { destruct (issubclass (ob_class G) Graph_cls) eqn:Hg.
    - rewrite (new_from_graph l G) in Hnew by assumption.
      destruct (List.find is_loop (ob_edges G)); [discriminate|].
      rewrite is_matching_covered_made in Hnew.
      destruct (is_matching_covered G matching algorithm solver verbose tol)
        as [[|]|e] eqn:E; try discriminate.
      injection Hnew as <- <-. split; [reflexivity|].
      apply is_matching_covered_true_iff in E as [M HM].
      assert (HP : forall M0, matching = Some M0 ->
                              is_perfect_matching G M0 = true).
      { intros M0 ->. unfold validate in HM.
        destruct (Nat.ltb (order G) 2); [discriminate|].
        destruct (has_loops G); [discriminate|].
        destruct (is_connected G); [|discriminate].
        destruct (resolve_matching G (Some M0)) as [M1|r] eqn:R; [|discriminate].
        pose proof (resolve_matching_sound G _ M1 (proj1 WF) R) as HM1.
        now rewrite (resolve_supplied_inv G M0 M1 R) in HM1. }
      apply (validate_accepts_iff G matching WF HP). eauto.
    - rewrite new_unknown in Hnew;
        [discriminate Hnew | assumption | discriminate |].
      intros l' G' [= <-] HG'. rewrite Hl' in HG'. now injection HG' as <-. }
  destruct Hmade as [-> HG].
  exists (made G (forced kwds)). split; [apply lookup_insert_eq|].
  split; [reflexivity|]. split; [exact WF | exact HG].
Qed.

Lemma handed_out_is_matching_covered_witness :
  exists S, <[6 := made cycle4 (forced (Some ∅))]> heap0 !! 6 = Some S /\
            is_mcg S = true /\ well_formed S /\ matching_covered S.
Proof.
  destruct cycle4_structure as (WF & _).
  apply (handed_out_is_matching_covered 0 cycle4 (Some [(1, 2); (3, 0)])
           "Edmonds" None 0%Z (1, -3)%Z [] (Some ∅) heap0 6).
  - reflexivity.
  - reflexivity.
  - exact WF.
  - vm_compute. reflexivity.
Defined.

End Acceptance.

(** * Complete graphs on an even number of vertices *)

Section EvenCompleteGraphs.

Lemma remove_vertex_notin (u : vertex) (l : list vertex) :
  ~ In u l -> remove_vertex u l = l.
Proof.
  unfold remove_vertex. induction l as [|b l IH]; intros Hu; [reflexivity|].
  simpl. destruct (Nat.eqb_spec b u) as [->|_]; simpl.
  - exfalso. apply Hu. now left.
  - f_equal. apply IH. intros H. apply Hu. now right.
Qed.

Lemma length_remove_vertex_in (u : vertex) (l : list vertex) :
  List.NoDup l -> In u l -> S (length (remove_vertex u l)) = length l.
Proof.
  induction l as [|a l IH]; intros ND Hin; [destruct Hin|].
  apply List.NoDup_cons_iff in ND as [Ha ND].
  destruct (Nat.eq_dec a u) as [->|Hne].
  - change (remove_vertex u (u :: l))
      with (if negb (Nat.eqb u u) then u :: remove_vertex u l
            else remove_vertex u l).
    rewrite Nat.eqb_refl. simpl. now rewrite remove_vertex_notin.
  - change (remove_vertex u (a :: l))
      with (if negb (Nat.eqb a u) then a :: remove_vertex u l
            else remove_vertex u l).
    apply Nat.eqb_neq in Hne as Hne'. rewrite Hne'. simpl. f_equal.
    apply IH; [assumption|].
    destruct Hin as [->|Hin]; [contradiction | assumption].
Qed.

Lemma CompleteGraph_has_edge (n a b : nat) :
  a <> b -> a < n -> b < n ->
  edge_in (a, b) (ob_edges (Graph.CompleteGraph n)) = true.
Proof.
  intros Hab Ha Hb. destruct (Nat.lt_ge_cases a b) as [Hlt|Hge].
  - apply In_edge_in, CompleteGraph_edge. lia.
  - rewrite edge_in_flip. apply In_edge_in, CompleteGraph_edge. lia.
Qed.

Lemma CompleteGraph_well_formed (n : nat) : well_formed (Graph.CompleteGraph n).
Proof.
  split; [apply List.seq_NoDup|].
  intros [i j] He. apply CompleteGraph_edge in He.
  split; apply List.in_seq; simpl; lia.
Qed.

(** In a complete graph any even number of distinct vertices can be
    paired up. *)
Lemma complete_pairing (n k : nat) :
  forall free,
    length free = 2 * k -> List.NoDup free -> (forall v, In v free -> v < n) ->
    exists M, pairing (ob_edges (Graph.CompleteGraph n)) free M.
Proof.
  induction k as [|k IH]; intros free Hlen ND Hlt.
  - destruct free; [|discriminate Hlen]. exists [].
    split; [|split]; simpl; [tauto | constructor | tauto].
  - destruct free as [|a [|b rest]]; simpl in Hlen; try lia.
    apply List.NoDup_cons_iff in ND as [Ha ND].
    apply List.NoDup_cons_iff in ND as [Hb ND].
    destruct (IH rest) as (M & A & B & C); [lia | assumption | |].
    { intros v Hv. apply Hlt. now right; right. }
    exists ((a, b) :: M). split; [|split].
    + intros e [<-|He]; [|now apply A].
      apply CompleteGraph_has_edge.
      * intros ->. apply Ha. now left.
      * apply Hlt. now left.
      * apply Hlt. right. now left.
    + simpl. constructor; [|constructor; [|assumption]].
      * simpl. intros [->|Hin]; [apply Ha; now left|].
        apply Ha. right. now apply C.
      * intros Hin. apply Hb. now apply C.
    + intros w. simpl. rewrite C. tauto.
Qed.

Lemma CompleteGraph_coverable (n : nat) (e : edge) :
  Nat.even n = true -> In e (ob_edges (Graph.CompleteGraph n)) ->
  coverable (Graph.CompleteGraph n) e.
Proof.
  intros Hev He. pose proof (CompleteGraph_well_formed n) as WF.
  apply extends_to_pm_sound; [apply WF | now apply In_edge_in |].
  destruct e as [i j]. pose proof He as Hij. apply CompleteGraph_edge in Hij.
  unfold extends_to_pm. apply andb_true_iff. split.
  { unfold is_loop. simpl. apply negb_true_iff, Nat.eqb_neq. lia. }
  simpl fst. simpl snd.
  set (vs := ob_vertices (Graph.CompleteGraph n)).
  assert (ND : List.NoDup vs) by apply WF.
  assert (Hlen : length vs = n) by apply List.length_seq.
  assert (Hi : In i vs) by (apply List.in_seq; simpl; lia).
  assert (Hj : In j (remove_vertex i vs))
    by (apply In_remove_vertex; split; [apply List.in_seq; simpl; lia | lia]).
  pose proof (length_remove_vertex_in i vs ND Hi) as L1.
  pose proof (length_remove_vertex_in j (remove_vertex i vs)
                (NoDup_remove_vertex i vs ND) Hj) as L2.
  apply Nat.even_spec in Hev as [k Hk].
  assert (HM : exists M, pairing (ob_edges (Graph.CompleteGraph n))
                                 (remove_vertex j (remove_vertex i vs)) M).
  { apply (complete_pairing n (k - 1)).
    - clearbody vs. unfold vertex in *. lia.
    - now apply NoDup_remove_vertex, NoDup_remove_vertex.
    - intros v Hv. rewrite !In_remove_vertex in Hv.
      destruct Hv as [[Hv _] _]. apply List.in_seq in Hv. simpl in Hv. lia. }
  destruct HM as [M HM].
  - destruct (pm_search_complete (order (Graph.CompleteGraph n))
                (ob_edges (Graph.CompleteGraph n))
                (remove_vertex j (remove_vertex i vs)) M) as [M' ->]; auto.
    + now apply NoDup_remove_vertex, NoDup_remove_vertex.
    + unfold order. fold vs. lia.
Qed.

Lemma CompleteGraph_matching_covered (n : nat) :
  Nat.even n = true -> 2 <= n -> matching_covered (Graph.CompleteGraph n).
Proof.
  intros Hev Hn. pose proof (CompleteGraph_well_formed n) as WF.
  split; [|split; [|split]].
  - unfold order. simpl. now rewrite List.length_seq.
  - apply CompleteGraph_loop_free.
  - apply is_connected_correct; [apply WF | apply CompleteGraph_connected].
  - intros e He. now apply CompleteGraph_coverable.
Qed.

(** X11: the complete graph on an even number (at least 2) of vertices
    is accepted: construction with no matching supplied hands out a
    copy of it. *)
Theorem even_complete_graph_accepted
    (n : nat) l algorithm solver verbose tol args kwds (h : heap) :
  loops_requested kwds = false -> Nat.even n = true -> 2 <= n ->
  h !! l = Some (Graph.CompleteGraph n) ->
  new (VRef l) None algorithm solver verbose tol args kwds h
  = (Return (fresh (dom h)),
     <[fresh (dom h) := made (Graph.CompleteGraph n) (forced kwds)]> h).
Proof.
  intros Hk Hev Hn Hl.
  rewrite (new_plain l (Graph.CompleteGraph n)); auto;
    [|apply CompleteGraph_loop_free].
  assert (E : is_matching_covered (Graph.CompleteGraph n) None algorithm solver
                                  verbose tol = Return true); [|now rewrite E].
  apply is_matching_covered_true_iff.
  apply validate_accepts_iff; [apply CompleteGraph_well_formed | discriminate |].
  now apply CompleteGraph_matching_covered.
Qed.

Lemma even_complete_graph_accepted_witness :
  new_default (VRef 0) {[0 := Graph.CompleteGraph 6]}
  = (Return 1, <[1 := made (Graph.CompleteGraph 6) (forced (Some ∅))]>
                 {[0 := Graph.CompleteGraph 6]}).
Proof.
  apply (even_complete_graph_accepted 6); first [reflexivity | lia].
Defined.

End EvenCompleteGraphs.

(** * Keywords other than [loops] *)

Section Keywords.

(** The state after a successful construction from an object of the
    heap. *)
Lemma new_success_state
    l (G : gobj) matching algorithm solver verbose tol args kwds (h : heap)
    (self : loc) (h' : heap) :
  h !! l = Some G ->
  new (VRef l) matching algorithm solver verbose tol args kwds h
  = (Return self, h') ->
  self = fresh (dom h) /\ h' = <[fresh (dom h) := made G (forced kwds)]> h.
Proof.
  intros Hl Hnew. pose proof (lookup_alloc h l G Hl) as Hl'.
  destruct (loops_requested kwds) eqn:Hk.
  { rewrite new_loops in Hnew by assumption. discriminate. }
  destruct (is_mcg G) eqn:Hc;
    [|destruct (issubclass (ob_class G) Graph_cls) eqn:Hg].
  - rewrite (new_from_mcg l G) in Hnew by assumption.
    destruct (List.find is_loop (ob_edges G)); [discriminate|].
    now injection Hnew as <- <-.
  - rewrite (new_from_graph l G) in Hnew by assumption.
    destruct (List.find is_loop (ob_edges G)); [discriminate|].
    destruct (is_matching_covered _ _ _ _ _ _) as [[|]|e]; try discriminate.
    now injection Hnew as <- <-.
  - rewrite new_unknown in Hnew;
      [discriminate Hnew | assumption | discriminate |].
    intros l' G' [= <-] HG'. rewrite Hl' in HG'. now injection HG' as <-.
Qed.

(** X12: the keyword [multiedges] is handed on to [Graph.__init__]: the
    object built with [multiedges=v] allows multiple edges exactly when
    [v] is true, and without the keyword it allows them exactly when the
    data does; when it allows them, adding an edge that is already there
    adds one more edge. *)
Theorem multiedges_keyword_honoured
    l (G : gobj) matching algorithm solver verbose tol args (kw : dict)
    (h : heap) (self : loc) (h' : heap) :
  h !! l = Some G ->
  new (VRef l) matching algorithm solver verbose tol args (Some kw) h
  = (Return self, h') ->
  exists S,
    h' !! self = Some S /\
    (forall v, kw !! "multiedges" = Some v -> v <> VNone ->
               ob_multiedges S = truthy v) /\
    (kw !! "multiedges" = None -> ob_multiedges S = ob_multiedges G) /\
    (ob_multiedges S = true ->
     forall a b, a <> b -> has_edge S (a, b) = true ->
       exists S', Graph.add_edge self a b h' = (Return tt, <[self := S']> h') /\
                  ob_edges S' = ob_edges S ++ [(a, b)]).
Proof.
  intros Hl Hnew.
  destruct (new_success_state _ _ _ _ _ _ _ _ _ _ _ _ Hl Hnew) as [-> ->].
  assert (Hflag : ob_multiedges (made G (forced (Some kw)))
                  = Graph.kw_flag kw "multiedges" (ob_multiedges G)).
  { simpl. unfold Graph.kw_flag. now rewrite lookup_insert_ne. }
  assert (Hedges : ob_edges (made G (forced (Some kw))) = ob_edges G)
    by reflexivity.
  assert (Hloops : ob_loops (made G (forced (Some kw))) = false)
    by reflexivity.
  set (S := made G (forced (Some kw))) in *. clearbody S.
  exists S.
  split; [apply lookup_insert_eq|]. split; [|split].
  - intros v Hv Hn. rewrite Hflag. unfold Graph.kw_flag. rewrite Hv.
    destruct v; try reflexivity. contradiction.
  - intros Hv. rewrite Hflag. unfold Graph.kw_flag. now rewrite Hv.
  - intros Hm a b Hab He. eexists. split.
    + unfold Graph.add_edge, bind, read, write, raise.
      rewrite lookup_insert_eq.
      apply Nat.eqb_neq in Hab. rewrite Hab. reflexivity.
    + simpl ob_edges. rewrite Hm. reflexivity.
Qed.

Lemma multiedges_keyword_honoured_witness :
  exists S,
    <[6 := made cycle4 (forced (Some {["multiedges" := VBool true]}))]> heap0 !! 6
    = Some S /\
    (forall v, ({["multiedges" := VBool true]} : dict) !! "multiedges" = Some v ->
               v <> VNone -> ob_multiedges S = truthy v) /\
    (({["multiedges" := VBool true]} : dict) !! "multiedges" = None ->
     ob_multiedges S = ob_multiedges cycle4) /\
    (ob_multiedges S = true ->
     forall a b, a <> b -> has_edge S (a, b) = true ->
       exists S',
         Graph.add_edge 6 a b
           (<[6 := made cycle4 (forced (Some {["multiedges" := VBool true]}))]> heap0)
         = (Return tt,
            <[6 := S']>
              (<[6 := made cycle4 (forced (Some {["multiedges" := VBool true]}))]>
                 heap0)) /\
         ob_edges S' = ob_edges S ++ [(a, b)]).
Proof.
  apply (multiedges_keyword_honoured 0 cycle4 None "Edmonds" None 0%Z (1, -3)%Z
           [] {["multiedges" := VBool true]} heap0 6).
  - reflexivity.
  - vm_compute. reflexivity.
Defined.

End Keywords.
